(** * TCP_File_Client: a shallow embedding of [main.go]

    The client dials a fixed address, checks a file name against a
    whitelist pattern, sends one request line and copies the answer into a
    local file until the peer closes the connection.

    The Go functions [validateFilename], [downloadFile] and [main] are
    embedded as Rocq functions over an explicit [World]: the connection, the
    file system, the log, standard output, a clock, and the scripted answers
    of the operating system.  Every system call appends an [Event] to the
    world's trace, so that ordering and resource properties are statements
    about traces. *)

From Stdlib Require Import ZArith Ascii String.
From Stdlib.Strings Require Import Byte.
From stdpp Require Import gmap strings list.

Local Open Scope string_scope.
Local Open Scope list_scope.

(** ** Errors *)

Module Errors.

(** Go [error] values that occur in the program.  [io_EOF] is the sentinel
    [io.EOF]; [netTimeout] is what a read returns once its deadline has
    passed; [errorString] is an error made by [errors.New], by [fmt.Errorf]
    without [%w], or any other failure reported by the operating system;
    [wrapError] is what [fmt.Errorf] builds for a format with [%w]. *)
Inductive error : Type :=
  | io_EOF
  | netTimeout
  | errorString (s : string)
  | wrapError (msg : string) (err : error).

#[global] Instance error_eq_dec : EqDecision error.
Proof. solve_decision. Defined.

(** [err.Error()] *)
Definition Error (e : error) : string :=
  match e with
  | io_EOF => "EOF"
  | netTimeout => "i/o timeout"
  | errorString s => s
  | wrapError msg _ => msg
  end.

(** [fmt.Errorf(prefix + ": %w", err)] *)
Definition Errorf_w (prefix : string) (err : error) : error :=
  wrapError (prefix +:+ ": " +:+ Error err) err.

(** [fmt.Errorf(prefix + ": %s", s)] *)
Definition Errorf_s (prefix : string) (s : string) : error :=
  errorString (prefix +:+ ": " +:+ s).


End Errors.
Export Errors.

(** ** The regular expression of [FilenameRegex]

    Only the operators that the pattern [^[a-zA-Z0-9._-]+$] parses to are
    modelled (the names are those of Go's [regexp/syntax]).  The text is the
    byte sequence of the Go string.  Go decodes UTF-8 before matching, but
    every range of this class is ASCII, so a byte of 128 or more never
    belongs to the class, whether taken alone or as part of a longer code
    point. *)

Module Regexp.

Inductive Regexp : Type :=
  | OpBeginText                                  (* ^ *)
  | OpEndText                                    (* $ without the m flag *)
  | OpCharClass (ranges : list (ascii * ascii))  (* [lo-hi ...] *)
  | OpPlus (sub : Regexp)                        (* sub+ *)
  | OpConcat (r1 r2 : Regexp).

Definition in_range (c : ascii) (r : ascii * ascii) : bool :=
  (N_of_ascii (fst r) <=? N_of_ascii c)%N && (N_of_ascii c <=? N_of_ascii (snd r))%N.

Definition in_class (ranges : list (ascii * ascii)) (c : ascii) : bool :=
  existsb (in_range c) ranges.

(** One or more rounds of [step], starting at position [i]; a round that
    does not advance is not repeated. *)
Fixpoint plus_ends (fuel : nat) (step : nat -> list nat) (i : nat) : list nat :=
  match fuel with
  | O => []
  | S fuel' =>
      flat_map (fun j => j :: (if (i <? j)%nat then plus_ends fuel' step j else []))
               (step i)
  end.

(** [ends r text i]: the positions at which a match of [r] that starts at
    position [i] of [text] can end. *)
Fixpoint ends (r : Regexp) (text : list ascii) (i : nat) : list nat :=
  match r with
  | OpBeginText => if (i =? 0)%nat then [i] else []
  | OpEndText => if (i =? length text)%nat then [i] else []
  | OpCharClass ranges =>
      match text !! i with
      | Some c => if in_class ranges c then [S i] else []
      | None => []
      end
  | OpPlus sub => plus_ends (S (length text)) (ends sub text) i
  | OpConcat r1 r2 => flat_map (ends r2 text) (ends r1 text i)
  end.

(** [re.MatchString(s)]: is there a match starting anywhere in [s]? *)
Definition MatchString (re : Regexp) (s : string) : bool :=
  let text := list_ascii_of_string s in
  existsb (fun i => negb (bool_decide (ends re text i = [])))
          (seq 0 (S (length text))).

End Regexp.
Export Regexp.

(** ** Constants and package variables of [main.go] *)

Definition ServerAddress : string := "127.0.0.1:8000".
Definition DefaultBufferSize : nat := 8192.
Definition DefaultLogFilename : string := "tcp-client.log".
(** [30 * time.Second], a [time.Duration] in nanoseconds *)
Definition ConnectionTimeout : Z := 30 * 1000000000.

Definition filename_class : list (ascii * ascii) :=
  [ ("a", "z"); ("A", "Z"); ("0", "9"); (".", "."); ("_", "_"); ("-", "-") ]%char.

(** [regexp.MustCompile(`^[a-zA-Z0-9._-]+$`)] *)
Definition FilenameRegex : Regexp :=
  OpConcat OpBeginText (OpConcat (OpPlus (OpCharClass filename_class)) OpEndText).

(** ** [validateFilename] *)

(** [nil] is [None]. *)
Definition validateFilename (filename : string) : option error :=
  if negb (MatchString FilenameRegex filename)
  then Some (Errorf_s "invalid filename" filename)
  else None.

(** ** The contract of the validator, in the words of the specification *)

Module Contract.

(** A character of the class [[a-zA-Z0-9._-]]. *)
Definition allowed_char (c : ascii) : bool :=
  let n := N_of_ascii c in
  ((97 <=? n) && (n <=? 122) || (65 <=? n) && (n <=? 90) || (48 <=? n) && (n <=? 57)
   || (n =? 46) || (n =? 95) || (n =? 45))%N.

(** The whole string is one or more characters of the class. *)
Definition whole_string_in_class (s : string) : bool :=
  match list_ascii_of_string s with
  | [] => false
  | cs => forallb allowed_char cs
  end.

End Contract.
Export Contract.

(** ** The world outside the program *)

Module Sys.

(** What the connection delivers to one or more calls of [conn.Read].
    [Arrive dt data]: [dt] nanoseconds after the read is issued [data] is
    there to be read, with a [nil] error; a read takes as much of it as its
    buffer holds and leaves the rest for the next read.  [Fail dt data err]:
    after [dt] nanoseconds the read returns [data] (cut to the buffer)
    together with the error [err]; this covers a reset, and a reader that
    hands out its last bytes together with [io.EOF], as the [io.Reader]
    contract allows.  When the script is used up the peer has closed the
    connection: the read returns 0 bytes and [io.EOF].  A read whose
    deadline passes before its event is due returns a timeout instead. *)
Inductive ReadEv : Type :=
  | Arrive (elapsed : Z) (data : list byte)
  | Fail (elapsed : Z) (data : list byte) (err : error).

(** The answers the operating system will give.  A fault of a write is the
    number of bytes that went out before the error. *)
Record Script : Type := {
  dial_fault : option error;
  openlog_fault : option error;
  conn_write_fault : option (nat * error);
  create_fault : option error;
  deadline_faults : list (option error);      (* one per call, then success *)
  incoming : list ReadEv;
  file_write_faults : list (option (nat * error))  (* one per call, then success *)
}.

(** Calls that leave the program, in the order they are made. *)
Inductive Event : Type :=
  | EvDial (network address : string) (timeout : Z) (res : option error)
  | EvOpenLog (name : string) (res : option error)
  | EvConnWrite (data : list byte) (res : option error)
  | EvCreate (name : string) (res : option error)
  | EvNow (t : Z)
  | EvSetReadDeadline (t : Z) (res : option error)
  | EvConnRead (cap : nat) (data : list byte) (res : option error)
  | EvFileWrite (name : string) (data : list byte) (res : option error)
  | EvFileClose (name : string)
  | EvConnClose
  | EvLogPrint (line : string)
  | EvLogClose
  | EvStdout (line : string)
  | EvExit (code : Z).

#[global] Instance byte_eq_dec : EqDecision byte := Byte.byte_eq_dec.

#[global] Instance Event_eq_dec : EqDecision Event.
Proof. solve_decision. Defined.

(** The log is kept apart from the data files, as timestamped entries; this
    is exact as long as no data file is named like the log. *)
Record World : Type := {
  script : Script;
  clock : Z;                          (* nanoseconds *)
  read_deadline : option Z;           (* of the connection; [None]: no deadline *)
  sent : list byte;                   (* bytes written to the connection *)
  fs : gmap string (list byte);       (* data files by name *)
  logfile : option (list (Z * string));  (* [None]: the log does not exist *)
  stdout : list string;
  trace : list Event
}.

Definition set_deadline_faults (l : list (option error)) (s : Script) : Script :=
  {| dial_fault := dial_fault s; openlog_fault := openlog_fault s;
     conn_write_fault := conn_write_fault s; create_fault := create_fault s;
     deadline_faults := l; incoming := incoming s;
     file_write_faults := file_write_faults s |}.

Definition set_incoming (l : list ReadEv) (s : Script) : Script :=
  {| dial_fault := dial_fault s; openlog_fault := openlog_fault s;
     conn_write_fault := conn_write_fault s; create_fault := create_fault s;
     deadline_faults := deadline_faults s; incoming := l;
     file_write_faults := file_write_faults s |}.

Definition set_file_write_faults (l : list (option (nat * error))) (s : Script) : Script :=
  {| dial_fault := dial_fault s; openlog_fault := openlog_fault s;
     conn_write_fault := conn_write_fault s; create_fault := create_fault s;
     deadline_faults := deadline_faults s; incoming := incoming s;
     file_write_faults := l |}.

Definition set_script (s : Script) (w : World) : World :=
  {| script := s; clock := clock w; read_deadline := read_deadline w;
     sent := sent w; fs := fs w;
     logfile := logfile w; stdout := stdout w; trace := trace w |}.

Definition set_clock (t : Z) (w : World) : World :=
  {| script := script w; clock := t; read_deadline := read_deadline w;
     sent := sent w; fs := fs w;
     logfile := logfile w; stdout := stdout w; trace := trace w |}.

Definition set_read_deadline (d : option Z) (w : World) : World :=
  {| script := script w; clock := clock w; read_deadline := d;
     sent := sent w; fs := fs w;
     logfile := logfile w; stdout := stdout w; trace := trace w |}.

Definition set_sent (b : list byte) (w : World) : World :=
  {| script := script w; clock := clock w; read_deadline := read_deadline w;
     sent := b; fs := fs w;
     logfile := logfile w; stdout := stdout w; trace := trace w |}.

Definition set_fs (m : gmap string (list byte)) (w : World) : World :=
  {| script := script w; clock := clock w; read_deadline := read_deadline w;
     sent := sent w; fs := m;
     logfile := logfile w; stdout := stdout w; trace := trace w |}.

Definition set_logfile (l : option (list (Z * string))) (w : World) : World :=
  {| script := script w; clock := clock w; read_deadline := read_deadline w;
     sent := sent w; fs := fs w;
     logfile := l; stdout := stdout w; trace := trace w |}.

Definition set_stdout (l : list string) (w : World) : World :=
  {| script := script w; clock := clock w; read_deadline := read_deadline w;
     sent := sent w; fs := fs w;
     logfile := logfile w; stdout := l; trace := trace w |}.

Definition emit (e : Event) (w : World) : World :=
  {| script := script w; clock := clock w; read_deadline := read_deadline w;
     sent := sent w; fs := fs w;
     logfile := logfile w; stdout := stdout w; trace := trace w ++ [e] |}.

(** *** Computations *)

(** A call either returns, or ends the process through [os.Exit], or the
    model ran out of fuel before the call was over. *)
Inductive Outcome (A : Type) : Type :=
  | Returned (a : A) (w : World)
  | Exited (code : Z) (w : World)
  | OutOfFuel.
Arguments Returned {A} a w.
Arguments Exited {A} code w.
Arguments OutOfFuel {A}.

Definition M (A : Type) : Type := World -> Outcome A.

Definition ret {A} (a : A) : M A := fun w => Returned a w.

Definition bind {A B} (m : M A) (k : A -> M B) : M B :=
  fun w =>
    match m w with
    | Returned a w' => k a w'
    | Exited c w' => Exited c w'
    | OutOfFuel => OutOfFuel
    end.

(** [defer cleanup; body]: the deferred call runs when the surrounding
    function returns.  [os.Exit] ends the process at once and runs no
    deferred call. *)
Definition defer {A} (cleanup : M unit) (body : M A) : M A :=
  fun w =>
    match body w with
    | Returned a w' =>
        match cleanup w' with
        | Returned _ w'' => Returned a w''
        | Exited c w'' => Exited c w''
        | OutOfFuel => OutOfFuel
        end
    | Exited c w' => Exited c w'
    | OutOfFuel => OutOfFuel
    end.

Declare Scope go_scope.
Delimit Scope go_scope with go.
Notation "x <- m ;; k" := (bind m (fun x => k))
  (at level 100, m at next level, right associativity) : go_scope.
Notation "m ;;; k" := (bind m (fun _ => k))
  (at level 100, right associativity) : go_scope.

(** *** Package [time] *)

Definition time_Now : M Z :=
  fun w => Returned (clock w) (emit (EvNow (clock w)) w).

(** *** The connection *)

Definition net_DialTimeout (network address : string) (timeout : Z) : M (option error) :=
  fun w =>
    let res := dial_fault (script w) in
    Returned res (emit (EvDial network address timeout res) w).

(** [conn.Write(b)]: the byte count and the error. *)
Definition conn_Write (b : list byte) : M (nat * option error) :=
  fun w =>
    let written := match conn_write_fault (script w) with
                   | Some (n, _) => take n b
                   | None => b
                   end in
    let res := snd <$> conn_write_fault (script w) in
    Returned (length written, res)
             (emit (EvConnWrite b res) (set_sent (sent w ++ written) w)).

(** [conn.SetReadDeadline(t)]; a call that fails leaves the deadline as it
    was. *)
Definition conn_SetReadDeadline (t : Z) : M (option error) :=
  fun w =>
    let res := hd None (deadline_faults (script w)) in
    Returned res
             (emit (EvSetReadDeadline t res)
                   (set_read_deadline
                      (match res with None => Some t | Some _ => read_deadline w end)
                      (set_script (set_deadline_faults (tl (deadline_faults (script w)))
                                                       (script w)) w))).

(** The deadline [dl] lies before the time [t]. *)
Definition deadline_passed (dl : option Z) (t : Z) : bool :=
  match dl with
  | Some d => (d <? t)%Z
  | None => false
  end.

(** An event that is due [dt] nanoseconds from now comes too late for the
    read deadline. *)
Definition timed_out (w : World) (dt : Z) : bool :=
  deadline_passed (read_deadline w) (clock w + dt).

(** The time at which a read that times out returns. *)
Definition timeout_time (w : World) : Z :=
  Z.max (clock w) (default (clock w) (read_deadline w)).

(** A read that times out: no bytes, the timeout error, and [left] still
    to come. *)
Definition read_timeout (cap : nat) (left : list ReadEv) (w : World)
  : Outcome (list byte * option error) :=
  Returned ([], Some netTimeout)
           (emit (EvConnRead cap [] (Some netTimeout))
                 (set_clock (timeout_time w)
                            (set_script (set_incoming left (script w)) w))).

(** [conn.Read(buffer)] with [len(buffer) = cap]: the bytes put at the
    front of the buffer, and the error.  A read into an empty buffer returns
    at once with 0 bytes and no error. *)
Definition conn_Read (cap : nat) : M (list byte * option error) :=
  fun w =>
    match cap with
    | O => Returned ([], None) (emit (EvConnRead cap [] None) w)
    | S _ =>
        match incoming (script w) with
        | [] =>
            if timed_out w 0 then read_timeout cap [] w
            else Returned ([], Some io_EOF) (emit (EvConnRead cap [] (Some io_EOF)) w)
        | Arrive dt data :: rest =>
            if timed_out w dt
            then read_timeout cap (Arrive (clock w + dt - timeout_time w) data :: rest) w
            else
              let left := match drop cap data with
                          | [] => rest
                          | more => Arrive 0 more :: rest
                          end in
              Returned (take cap data, None)
                       (emit (EvConnRead cap (take cap data) None)
                             (set_clock (clock w + dt)
                                        (set_script (set_incoming left (script w)) w)))
        | Fail dt data err :: rest =>
            if timed_out w dt
            then read_timeout cap (Fail (clock w + dt - timeout_time w) data err :: rest) w
            else
              Returned (take cap data, Some err)
                       (emit (EvConnRead cap (take cap data) (Some err))
                             (set_clock (clock w + dt)
                                        (set_script (set_incoming rest (script w)) w)))
        end
    end.

Definition conn_Close : M unit :=
  fun w => Returned tt (emit EvConnClose w).

(** *** Data files *)

(** An [*os.File] made by [os.Create]. *)
Record File : Type := { file_name : string }.

(** [os.Create(name)]: a new empty file, or the old one cut to nothing. *)
Definition os_Create (name : string) : M (File * option error) :=
  fun w =>
    match create_fault (script w) with
    | Some err => Returned ({| file_name := name |}, Some err) (emit (EvCreate name (Some err)) w)
    | None =>
        Returned ({| file_name := name |}, None)
                 (emit (EvCreate name None) (set_fs (<[name := []]> (fs w)) w))
    end.

(** [file.Write(b)]: the handle writes where its last write ended. *)
Definition file_Write (f : File) (b : list byte) : M (nat * option error) :=
  fun w =>
    let written := match hd None (file_write_faults (script w)) with
                   | Some (n, _) => take n b
                   | None => b
                   end in
    let res := snd <$> hd None (file_write_faults (script w)) in
    Returned (length written, res)
             (emit (EvFileWrite (file_name f) b res)
                   (set_fs (alter (fun old => old ++ written) (file_name f) (fs w))
                           (set_script (set_file_write_faults
                                          (tl (file_write_faults (script w)))
                                          (script w)) w))).

Definition file_Close (f : File) : M unit :=
  fun w => Returned tt (emit (EvFileClose (file_name f)) w).

(** *** The log and standard output *)

(** [os.OpenFile(name, os.O_CREATE|os.O_APPEND|os.O_WRONLY, 0644)] *)
Definition os_OpenFile_append (name : string) : M (option error) :=
  fun w =>
    match openlog_fault (script w) with
    | Some err => Returned (Some err) (emit (EvOpenLog name (Some err)) w)
    | None =>
        Returned None
                 (emit (EvOpenLog name None)
                       (set_logfile (Some (default [] (logfile w))) w))
    end.

(** The line feed that Go writes as a backslash and an n. *)
Definition newline : string := String "010"%char EmptyString.

(** [fmt.Sprintln]: the operands with spaces between them, and a newline. *)
Definition Sprintln (args : list string) : string :=
  String.concat " " args +:+ newline.

(** The world after an entry is added to the log; the entry carries the
    time of the call.  Nothing is added to a log that is not there. *)
Definition logged (line : string) (w : World) : World :=
  emit (EvLogPrint line)
       (set_logfile ((fun old => old ++ [(clock w, line)]) <$> logfile w) w).

(** The world after a line is written to standard output. *)
Definition printed (line : string) (w : World) : World :=
  emit (EvStdout line) (set_stdout (stdout w ++ [line]) w).

(** The [Output] of a logger made by [log.New] with an empty prefix and
    [log.LstdFlags];
    errors of the write are dropped. *)
Definition logger_Output (line : string) : M unit :=
  fun w => Returned tt (logged line w).

Definition logger_Println (args : list string) : M unit :=
  logger_Output (Sprintln args).

Definition fmt_Println (args : list string) : M unit :=
  fun w => Returned tt (printed (Sprintln args) w).

Definition logFile_Close : M unit :=
  fun w => Returned tt (emit EvLogClose w).

Definition os_Exit {A} (code : Z) : M A :=
  fun w => Exited code (emit (EvExit code) w).

Definition out_of_fuel {A} : M A := fun _ => OutOfFuel.

End Sys.
Export Sys.

Local Open Scope go_scope.

(** ** [downloadFile] *)

(** The [for] loop of [downloadFile]; [fuel] bounds the number of rounds.
    The buffer made by [make([]byte, bufferSize)] is represented by its
    length, and [buffer[:bytesRead]] by the bytes that the read returned. *)
Fixpoint receive (fuel : nat) (file : File) (bufferSize : nat) : M (option error) :=
  match fuel with
  | O => out_of_fuel
  | S fuel' =>
      now <- time_Now ;;
      err <- conn_SetReadDeadline (now + ConnectionTimeout) ;;
      match err with
      | Some err => ret (Some (Errorf_w "error setting read deadline" err))
      | None =>
          r <- conn_Read bufferSize ;;
          match snd r with
          | Some err =>
              if decide (err = io_EOF) then ret None
              else ret (Some (Errorf_w "error reading data from connection" err))
          | None =>
              r' <- file_Write file (fst r) ;;
              match snd r' with
              | Some err => ret (Some (Errorf_w "error writing data to file" err))
              | None => receive fuel' file bufferSize
              end
          end
      end
  end.

Definition downloadFile (fuel : nat) (filename : string) (bufferSize : nat)
  : M (option error) :=
  let request := "GET " +:+ filename +:+ newline in
  r <- conn_Write (list_byte_of_string request) ;;
  match snd r with
  | Some err => ret (Some (Errorf_w "error sending request" err))
  | None =>
      r' <- os_Create filename ;;
      match snd r' with
      | Some err => ret (Some (Errorf_w "error creating file" err))
      | None => defer (file_Close (fst r')) (receive fuel (fst r') bufferSize)
      end
  end.

(** ** [main] *)

(** The body of [main] for a given value of its local [filename]. *)
Definition main_with (filename : string) (fuel : nat) : M unit :=
  err <- net_DialTimeout "tcp" ServerAddress ConnectionTimeout ;;
  match err with
  | Some err => fmt_Println ["error connecting to server:"; Error err] ;;; os_Exit 1
  | None =>
      defer conn_Close (
        let logFilename := DefaultLogFilename in
        err <- os_OpenFile_append logFilename ;;
        match err with
        | Some err => fmt_Println ["error creating log file:"; Error err] ;;; os_Exit 1
        | None =>
            defer logFile_Close (
              match validateFilename filename with
              | Some err => logger_Println ["invalid filename:"; Error err] ;;; os_Exit 1
              | None =>
                  err <- downloadFile fuel filename DefaultBufferSize ;;
                  match err with
                  | Some err =>
                      logger_Println ["error downloading file:"; Error err] ;;; os_Exit 1
                  | None => logger_Output ("downloaded file " +:+ filename +:+ newline)
                  end
              end)
        end)
  end.

Definition main (fuel : nat) : M unit := main_with "test.txt" fuel.

(** The exit status of the process and the world it leaves: a [main] that
    returns ends the process with status 0. *)
Definition run (fuel : nat) (w : World) : option (Z * World) :=
  match main fuel w with
  | Returned _ w' => Some (0%Z, emit (EvExit 0) w')
  | Exited code w' => Some (code, w')
  | OutOfFuel => None
  end.

Definition run_with (filename : string) (fuel : nat) (w : World) : option (Z * World) :=
  match main_with filename fuel w with
  | Returned _ w' => Some (0%Z, emit (EvExit 0) w')
  | Exited code w' => Some (code, w')
  | OutOfFuel => None
  end.

(** ** Vocabulary of the statements *)

(** Position [k] of [text] holds a character of the class. *)
Definition class_at (cls : list (ascii * ascii)) (text : list ascii) (k : nat) : Prop :=
  exists c, text !! k = Some c /\ in_class cls c = true.

(** The events that were added to the trace between [w] and [w']. *)
Definition emitted (w w' : World) : list Event :=
  drop (length (trace w)) (trace w').

(** A server that writes [chunks] and then closes the connection: every
    chunk arrives after its delay, whatever its size. *)
Definition arrivals (chunks : list (Z * list byte)) : list ReadEv :=
  map (fun c => Arrive (fst c) (snd c)) chunks.

(** A server that writes [chunks] and closes the connection [close_delay]
    nanoseconds after the last of them is read. *)
Definition server_writes (chunks : list (Z * list byte)) (close_delay : Z)
  : list ReadEv :=
  arrivals chunks ++ [Fail close_delay [] io_EOF].

(** No chunk is due later than [ConnectionTimeout] after the read that
    waits for it. *)
Definition timely (chunks : list (Z * list byte)) : bool :=
  forallb (fun c => (fst c <=? ConnectionTimeout)%Z) chunks.

(** The bytes of a list of chunks, in order. *)
Definition payload (chunks : list (Z * list byte)) : list byte :=
  concat (map snd chunks).

(** A bound on the number of rounds the loop needs to use up a script when
    the buffer is not empty. *)
Fixpoint pending (l : list ReadEv) : nat :=
  match l with
  | [] => 0
  | Arrive _ data :: rest => S (length data + pending rest)
  | Fail _ _ _ :: rest => S (pending rest)
  end.

Definition is_none {A} (o : option A) : bool :=
  match o with None => true | Some _ => false end.

(** No call of [SetReadDeadline] and no write to the output file fails. *)
Definition no_loop_faults (s : Script) : bool :=
  forallb is_none (deadline_faults s) && forallb is_none (file_write_faults s).

(** Nothing fails on the client's side during a download. *)
Definition no_local_faults (s : Script) : bool :=
  is_none (conn_write_fault s) && is_none (create_fault s) && no_loop_faults s.

(** The event at position [i] is not a read, or it comes right after a
    reading of the clock and a successful [SetReadDeadline] to that time
    plus [ConnectionTimeout]. *)
Definition armed_at (evs : list Event) (i : nat) : bool :=
  match evs !! i with
  | Some (EvConnRead _ _ _) =>
      match i with
      | S (S j) =>
          match evs !! j, evs !! (S j) with
          | Some (EvNow t), Some (EvSetReadDeadline d None) =>
              (d =? t + ConnectionTimeout)%Z
          | _, _ => false
          end
      | _ => false
      end
  | _ => true
  end.

Definition reads_armed (evs : list Event) : bool :=
  forallb (armed_at evs) (seq 0 (length evs)).

(** The request line of [downloadFile] as bytes. *)
Definition request_line (filename : string) : list byte :=
  list_byte_of_string ("GET " +:+ filename +:+ newline).

(** What [downloadFile] makes of an error of [conn.Read]. *)
Definition read_verdict (e : error) : option error :=
  if decide (e = io_EOF) then None
  else Some (Errorf_w "error reading data from connection" e).

(** The world in which the receive loop starts: the request line is sent
    and the file is new and empty. *)
Definition started (filename : string) (w : World) : World :=
  emit (EvCreate filename None)
       (set_fs (<[filename := []]> (fs w))
               (emit (EvConnWrite (request_line filename) None)
                     (set_sent (sent w ++ request_line filename) w))).

(** The world in which [main] validates the file name and starts the
    download: the connection is there and the log is open. *)
Definition connected (w : World) : World :=
  emit (EvOpenLog DefaultLogFilename None)
       (set_logfile (Some (default [] (logfile w)))
                    (emit (EvDial "tcp" ServerAddress ConnectionTimeout None) w)).

(** The events of the receive loop. *)
Definition is_loop_event (e : Event) : bool :=
  match e with
  | EvNow _ | EvSetReadDeadline _ _ | EvConnRead _ _ _ | EvFileWrite _ _ _ => true
  | _ => false
  end.

(** How often the event [e] occurs in [evs]. *)
Definition count_event (e : Event) (evs : list Event) : nat :=
  count_occ Event_eq_dec evs e.

(** What a run of the receive loop from [w] to [w'] with result [res] and
    events [evs] is like. *)
Record loop_run (res : option error) (w w' : World) (evs : list Event) : Prop := {
  lr_trace : trace w' = trace w ++ evs;
  lr_armed : reads_armed evs = true;
  lr_events : forallb is_loop_event evs = true;
  lr_deadline : forall t e, In (EvSetReadDeadline t (Some e)) evs ->
                  res = Some (Errorf_w "error setting read deadline" e);
  lr_read : forall c d e, In (EvConnRead c d (Some e)) evs -> res = read_verdict e;
  lr_write : forall n d e, In (EvFileWrite n d (Some e)) evs ->
                  res = Some (Errorf_w "error writing data to file" e);
  lr_eof : res = None -> exists c d, last evs = Some (EvConnRead c d (Some io_EOF));
  lr_stdout : stdout w' = stdout w;
  lr_logfile : logfile w' = logfile w;
  lr_sent : sent w' = sent w
}.

(** ** Sample worlds *)

Module Sample.

Definition bytes (s : string) : list byte := list_byte_of_string s.

(** A server that answers nothing and closes, and no fault anywhere. *)
Definition quiet : Script :=
  {| dial_fault := None; openlog_fault := None; conn_write_fault := None;
     create_fault := None; deadline_faults := []; incoming := [];
     file_write_faults := [] |}.

(** The world before the program starts. *)
Definition fresh (s : Script) : World :=
  {| script := s; clock := 0; read_deadline := None; sent := []; fs := ∅;
     logfile := None; stdout := []; trace := [] |}.

Definition hello : list (Z * list byte) := [(5%Z, bytes "hello"); (7%Z, bytes " world")].

(** The server writes two chunks and closes. *)
Definition w_hello : World := fresh (set_incoming (arrivals hello) quiet).

(** The last read hands out its bytes together with [io.EOF]. *)
Definition w_eof_data : World :=
  fresh (set_incoming (arrivals [(5%Z, bytes "hello")] ++ [Fail 7 (bytes " world") io_EOF])
                      quiet).

(** The second chunk is due 31 seconds after the first: the second read
    runs into its deadline. *)
Definition w_timeout : World :=
  fresh (set_incoming (arrivals [(5%Z, bytes "hello"); (31000000000%Z, bytes " world")])
                      quiet).

(** Two chunks that are 20 seconds apart, and 20 more seconds to the close:
    the transfer takes longer than [ConnectionTimeout]. *)
Definition slow : list (Z * list byte) :=
  [(20000000000%Z, bytes "hello"); (20000000000%Z, bytes " world")].

Definition w_slow : World :=
  fresh (set_incoming (server_writes slow 20000000000) quiet).

(** The server accepts the request and then neither answers nor closes
    for a thousand seconds. *)
Definition w_stalled : World :=
  fresh (set_incoming [Arrive 1000000000000 (bytes "late")] quiet).

(** The second call of [SetReadDeadline] fails. *)
Definition w_deadline : World :=
  fresh (set_deadline_faults [None; Some (errorString "use of closed network connection")]
                             (set_incoming (arrivals hello) quiet)).

(** The request line cannot be written. *)
Definition w_request : World :=
  fresh {| dial_fault := None; openlog_fault := None;
           conn_write_fault := Some (4, errorString "broken pipe");
           create_fault := None; deadline_faults := []; incoming := arrivals hello;
           file_write_faults := [] |}.

(** The output file cannot be created. *)
Definition w_create : World :=
  fresh {| dial_fault := None; openlog_fault := None; conn_write_fault := None;
           create_fault := Some (errorString "open test.txt: permission denied");
           deadline_faults := []; incoming := arrivals hello;
           file_write_faults := [] |}.

(** The server cannot be reached. *)
Definition w_unreachable : World :=
  fresh {| dial_fault := Some (errorString "dial tcp 127.0.0.1:8000: connect: connection refused");
           openlog_fault := None; conn_write_fault := None; create_fault := None;
           deadline_faults := []; incoming := []; file_write_faults := [] |}.

End Sample.

(** ** Vocabulary of the further statements *)

(** The bytes that the reads without error returned, in order. *)
Definition read_bytes (evs : list Event) : list byte :=
  flat_map (fun e => match e with EvConnRead _ d None => d | _ => [] end) evs.

(** The texts that [downloadFile] puts in front of an error. *)
Definition download_phases : list string :=
  [ "error sending request"; "error creating file"; "error setting read deadline";
    "error reading data from connection"; "error writing data to file" ].

(** The time the chunks take to arrive, one after the other. *)
Definition total_delay (chunks : list (Z * list byte)) : Z :=
  fold_right Z.add 0%Z (map fst chunks).

(** What is left of the chunks once a read with a buffer of [cap] bytes has
    taken from the chunk [data]. *)
Definition left_chunks (cap : nat) (data : list byte) (cs : list (Z * list byte))
  : list (Z * list byte) :=
  match drop cap data with
  | [] => cs
  | more => (0%Z, more) :: cs
  end.

(** The delay of an event of the connection. *)
Definition due (ev : ReadEv) : Z :=
  match ev with
  | Arrive dt _ => dt
  | Fail dt _ _ => dt
  end.

Module MoreSample.

(** The second write to the output file fails after 3 bytes. *)
Definition w_disk_full : World :=
  Sample.fresh
    {| dial_fault := None; openlog_fault := None; conn_write_fault := None;
       create_fault := None; deadline_faults := [];
       incoming := arrivals Sample.hello;
       file_write_faults := [None; Some (3, errorString "no space left on device")] |}.

(** The log cannot be opened. *)
Definition w_log_denied : World :=
  Sample.fresh
    {| dial_fault := None;
       openlog_fault := Some (errorString "open tcp-client.log: permission denied");
       conn_write_fault := None; create_fault := None; deadline_faults := [];
       incoming := arrivals Sample.hello; file_write_faults := [] |}.

(** An earlier run has left a file, another file and a log. *)
Definition w_second_run : World :=
  {| script := set_incoming (server_writes Sample.hello 3) Sample.quiet;
     clock := 100; read_deadline := None; sent := [];
     fs := <["notes.txt" := Sample.bytes "keep"]>
             (<["test.txt" := Sample.bytes "an older and longer content"]> ∅);
     logfile := Some [(1%Z, "downloaded file test.txt" +:+ newline)];
     stdout := []; trace := [] |}.

(** After the first chunk the server stays silent for 40 seconds. *)
Definition w_gap : World :=
  Sample.fresh
    (set_incoming (arrivals [(5%Z, Sample.bytes "hello")]
                     ++ [Arrive 40000000000 (Sample.bytes " world")])
                  Sample.quiet).

End MoreSample.

(** * Facts *)

(** ** The pattern of [FilenameRegex] *)

Section ClassRun.
Variable cls : list (ascii * ascii).
Variable text : list ascii.

Lemma class_step_In i j :
  In j (ends (OpCharClass cls) text i) <-> j = S i /\ class_at cls text i.
Proof.
  unfold class_at; simpl.
  destruct (text !! i) as [c|] eqn:E.
  - destruct (in_class cls c) eqn:Hc; simpl.
    + split.
      * intros [<-|[]]. split; [done|]. by exists c.
      * intros [-> _]. by left.
    + split; [intros []|]. intros [_ (c' & Hc' & Hin)]. congruence.
  - simpl. split; [intros []|]. intros [_ (c' & Hc' & _)]. congruence.
Qed.

(** Every end of a match of [[cls]+] lies after a run of characters of the
    class. *)
Lemma plus_ends_sound fuel : forall i j,
  In j (plus_ends fuel (ends (OpCharClass cls) text) i) ->
  i < j /\ forall k, i <= k < j -> class_at cls text k.
Proof.
  induction fuel as [|fuel IH]; intros i j; simpl; [intros []|].
  rewrite in_flat_map. intros (m & Hm & Hj).
  apply class_step_In in Hm as [-> Hi].
  destruct Hj as [<-|Hj].
  - split; [lia|]. intros k Hk. by replace k with i by lia.
  - rewrite (proj2 (Nat.ltb_lt i (S i))) in Hj by lia.
    apply IH in Hj as [Hlt Hall].
    split; [lia|]. intros k Hk.
    destruct (decide (k = i)) as [->|]; [done|]. apply Hall. lia.
Qed.

(** A run of [n + 1] characters of the class is matched, given the fuel. *)
Lemma plus_ends_complete n : forall fuel i,
  n < fuel ->
  (forall k, i <= k <= i + n -> class_at cls text k) ->
  In (S (i + n)) (plus_ends fuel (ends (OpCharClass cls) text) i).
Proof.
  induction n as [|n IH]; intros fuel i Hfuel Hall;
    (destruct fuel as [|fuel]; [lia|]); simpl;
    apply in_flat_map; exists (S i);
    (split; [apply class_step_In; split; [done|apply Hall; lia]|]).
  - left. lia.
  - right. rewrite (proj2 (Nat.ltb_lt i (S i))) by lia.
    replace (S (i + S n)) with (S (S i + n)) by lia.
    apply IH; [lia|]. intros k Hk. apply Hall. lia.
Qed.

End ClassRun.

Lemma in_class_allowed c : in_class filename_class c = allowed_char c.
Proof. destruct c as [[] [] [] [] [] [] [] []]; reflexivity. Qed.

Lemma class_at_forallb (text : list ascii) :
  (forall k, k < length text -> class_at filename_class text k) <->
  forallb allowed_char text = true.
Proof.
  rewrite forallb_forall. split.
  - intros H c Hc. apply list_elem_of_In, list_elem_of_lookup in Hc as [k Hk].
    destruct (H k) as (c' & Hc' & Hin); [by eapply lookup_lt_Some|].
    rewrite <- in_class_allowed. congruence.
  - intros H k Hk. apply lookup_lt_is_Some in Hk as [c Hc].
    exists c. split; [done|]. rewrite in_class_allowed. apply H.
    apply list_elem_of_In, list_elem_of_lookup. eauto.
Qed.

Lemma ends_FilenameRegex_In text i j :
  In j (ends FilenameRegex text i) <->
  i = 0 /\ j = length text /\ text <> [] /\ forallb allowed_char text = true.
Proof.
  change (ends FilenameRegex text i) with
    (flat_map (fun i0 => flat_map (ends OpEndText text)
                 (plus_ends (S (length text)) (ends (OpCharClass filename_class) text) i0))
              (ends OpBeginText text i)).
  rewrite in_flat_map. split.
  - intros (i0 & Hi0 & Hj). cbn [ends] in Hi0.
    destruct (Nat.eqb_spec i 0) as [->|]; [|destruct Hi0].
    destruct Hi0 as [<-|[]].
    apply in_flat_map in Hj as (e & He & Hend).
    cbn [ends] in Hend.
    destruct (Nat.eqb_spec e (length text)) as [->|]; [|destruct Hend].
    destruct Hend as [<-|[]].
    apply plus_ends_sound in He as [Hlt Hall].
    repeat split; [|apply class_at_forallb; intros k Hk; apply Hall; lia].
    intros ->. simpl in Hlt. lia.
  - intros (-> & -> & Hne & Hall). exists 0. split; [by left|].
    apply in_flat_map. exists (length text). split.
    + destruct text as [|c cs] eqn:Et; [done|]. rewrite <- Et in *.
      assert (Hlen : S (0 + length cs) = length text) by (by rewrite Et).
      rewrite <- Hlen at 1. apply plus_ends_complete; [lia|].
      intros k Hk. apply class_at_forallb; [done|]. lia.
    + cbn [ends]. rewrite Nat.eqb_refl. by left.
Qed.

Lemma ends_FilenameRegex text i :
  ends FilenameRegex text i <> [] <->
  i = 0 /\ text <> [] /\ forallb allowed_char text = true.
Proof.
  split.
  - intros Hne. destruct (ends FilenameRegex text i) as [|j js] eqn:E; [done|].
    assert (Hj : In j (ends FilenameRegex text i)) by (rewrite E; by left).
    apply ends_FilenameRegex_In in Hj. tauto.
  - intros (-> & Hne & Hall) E.
    assert (Hj : In (length text) (ends FilenameRegex text 0))
      by (apply ends_FilenameRegex_In; tauto).
    rewrite E in Hj. destruct Hj.
Qed.

(** The search for a match of the anchored pattern is the check of the
    whole string. *)
Lemma MatchString_FilenameRegex s :
  MatchString FilenameRegex s = whole_string_in_class s.
Proof.
  unfold MatchString, whole_string_in_class.
  set (text := list_ascii_of_string s).
  apply eq_true_iff_eq. rewrite existsb_exists. split.
  - intros (i & _ & Hi). apply negb_true_iff, bool_decide_eq_false in Hi.
    apply ends_FilenameRegex in Hi as (_ & Hne & Hall).
    destruct text; [done|]. exact Hall.
  - intros H. exists 0. split; [apply in_seq; lia|].
    apply negb_true_iff, bool_decide_eq_false, ends_FilenameRegex.
    split; [done|]. destruct text; [done|]. split; [done|exact H].
Qed.

(** ** Traces *)

Lemma emitted_app w w' evs : trace w' = trace w ++ evs -> emitted w w' = evs.
Proof. unfold emitted. intros ->. by rewrite drop_app_length. Qed.

Lemma armed_at_app_l l1 l2 i :
  i < length l1 -> armed_at (l1 ++ l2) i = armed_at l1 i.
Proof.
  intros Hi. unfold armed_at. rewrite lookup_app_l by done.
  destruct (l1 !! i) as [[]|]; try done.
  destruct i as [|[|j]]; try done.
  rewrite !lookup_app_l by lia. done.
Qed.

Lemma armed_at_app_r l1 l2 k :
  armed_at l2 k = true -> armed_at (l1 ++ l2) (length l1 + k) = true.
Proof.
  unfold armed_at. rewrite lookup_app_r by lia.
  replace (length l1 + k - length l1) with k by lia.
  destruct (l2 !! k) as [[]|]; try done.
  destruct k as [|[|j]]; try done.
  replace (length l1 + S (S j)) with (S (S (length l1 + j))) by lia.
  rewrite !lookup_app_r by lia.
  replace (length l1 + j - length l1) with j by lia.
  replace (S (length l1 + j) - length l1) with (S j) by lia.
  done.
Qed.

Lemma reads_armed_app l1 l2 :
  reads_armed l1 = true -> reads_armed l2 = true -> reads_armed (l1 ++ l2) = true.
Proof.
  unfold reads_armed. rewrite !forallb_forall. intros H1 H2 i Hi.
  apply in_seq in Hi. rewrite length_app in Hi.
  destruct (decide (i < length l1)) as [Hlt|Hge].
  - rewrite armed_at_app_l by done. apply H1, in_seq. lia.
  - replace i with (length l1 + (i - length l1)) by lia.
    apply armed_at_app_r, H2, in_seq. lia.
Qed.

(** ** The receive loop *)

Ltac world_simpl :=
  cbn [script clock sent fs logfile stdout trace
       read_deadline emit set_script set_clock set_read_deadline set_sent set_fs
       set_logfile set_stdout logged printed started connected
       dial_fault openlog_fault conn_write_fault create_fault deadline_faults
       incoming file_write_faults
       set_deadline_faults set_incoming set_file_write_faults fst snd] in *.

Ltac in_cases :=
  cbn; intros; unfold read_verdict;
  repeat match goal with
         | H : _ \/ _ |- _ => destruct H
         | H : False |- _ => destruct H
         | H : @eq Event _ _ |- _ => first [discriminate H | injection H as ?; subst]
         end;
  try case_decide; try congruence.

Ltac loop_done H :=
  injection H as <- <-; eexists; split;
  [ cbn; rewrite <- ?app_assoc; reflexivity
  | unfold reads_armed, armed_at; cbn; rewrite ?Z.eqb_refl; reflexivity
  | reflexivity
  | in_cases | in_cases | in_cases
  | cbn; intros; try discriminate; eauto
  | reflexivity | reflexivity | reflexivity ].

Lemma forallb_is_none_hd {A} (l : list (option A)) :
  forallb is_none l = true -> hd None l = None /\ forallb is_none (tl l) = true.
Proof. destruct l as [|[a|] l]; simpl; intros H; done. Qed.

Lemma no_loop_faults_hd s :
  no_loop_faults s = true ->
  hd None (deadline_faults s) = None /\ hd None (file_write_faults s) = None.
Proof.
  unfold no_loop_faults. intros [H1 H2]%andb_true_iff.
  apply forallb_is_none_hd in H1, H2. tauto.
Qed.

Lemma alter_app_nil (k : string) (m : gmap string (list byte)) :
  alter (fun old => old ++ []) k m = m.
Proof.
  apply map_eq. intros i. destruct (decide (k = i)) as [->|Hne].
  - rewrite lookup_alter_eq. destruct (m !! i); simpl; [|done].
    by rewrite app_nil_r.
  - by rewrite lookup_alter_ne.
Qed.

Lemma alter_app_app (k : string) (a b : list byte) (m : gmap string (list byte)) :
  alter (fun old => old ++ b) k (alter (fun old => old ++ a) k m)
  = alter (fun old => old ++ (a ++ b)) k m.
Proof.
  apply map_eq. intros i. destruct (decide (k = i)) as [->|Hne].
  - rewrite !lookup_alter_eq. destruct (m !! i); simpl; [|done].
    by rewrite app_assoc.
  - by rewrite !lookup_alter_ne.
Qed.

(** The loop never ends the process. *)
Lemma receive_not_exited fuel file cap : forall w code w',
  receive fuel file cap w <> Exited code w'.
Proof.
  induction fuel as [|fuel IH]; intros w code w'; [done|].
  cbn [receive]. unfold bind, time_Now, conn_SetReadDeadline. world_simpl.
  destruct (hd None _); [done|].
  unfold conn_Read. destruct cap as [|c].
  - unfold file_Write. world_simpl.
    destruct (snd <$> hd None _); [done|]. apply IH.
  - unfold read_timeout. world_simpl.
    destruct (incoming _) as [|[dt data|dt data err] rest]; world_simpl;
      (destruct (timed_out _ _); world_simpl;
       [unfold ret; by destruct (decide (netTimeout = io_EOF))|]).
    + done.
    + unfold file_Write. world_simpl. destruct (snd <$> hd None _); [done|]. apply IH.
    + unfold ret. by destruct (decide (err = io_EOF)).
Qed.

(** A round that reads without error and writes without error, followed by
    the rest of the loop. *)
Lemma loop_run_step res w w1 w' evs t c d n :
  trace w1 = trace w ++ [EvNow t; EvSetReadDeadline (t + ConnectionTimeout) None;
                         EvConnRead c d None; EvFileWrite n d None] ->
  stdout w1 = stdout w -> logfile w1 = logfile w -> sent w1 = sent w ->
  loop_run res w1 w' evs ->
  loop_run res w w' ([EvNow t; EvSetReadDeadline (t + ConnectionTimeout) None;
                      EvConnRead c d None; EvFileWrite n d None] ++ evs).
Proof.
  set (block := [EvNow t; _; _; _]).
  intros Ht Ho Hl Hs [Htr Harm Hev Hdl Hrd Hwr Heof Hso Hlg Hse].
  assert (Hin : forall e, In e (block ++ evs) -> (forall a b, e <> EvConnRead a b None) ->
                          (forall a b, e <> EvFileWrite a b None) ->
                          (forall a, e <> EvNow a) ->
                          (forall a, e <> EvSetReadDeadline a None) -> In e evs).
  { intros e [He|He]%in_app_or; [|done]. intros H1 H2 H3 H4.
    cbn in He. intuition (subst; congruence). }
  split.
  - rewrite Htr, Ht. by rewrite app_assoc.
  - apply reads_armed_app; [|done].
    unfold reads_armed, armed_at. cbn. by rewrite Z.eqb_refl.
  - rewrite forallb_app. by rewrite Hev.
  - intros t0 e He. apply (Hdl t0), Hin; [done|intros; congruence..].
  - intros c0 d0 e He. apply (Hrd c0 d0), Hin; [done|intros; congruence..].
  - intros n0 d0 e He. apply (Hwr n0 d0), Hin; [done|intros; congruence..].
  - intros Hr. destruct (Heof Hr) as (c0 & d0 & Hlast).
    exists c0, d0. rewrite last_app, Hlast. done.
  - congruence.
  - congruence.
  - congruence.
Qed.

(** Whatever the world does, a loop that returns has re-armed the deadline
    before each read, and its result is the verdict on the round that ended
    it. *)
Lemma receive_loop_run fuel file cap : forall w res w',
  receive fuel file cap w = Returned res w' ->
  exists evs, loop_run res w w' evs.
Proof.
  induction fuel as [|fuel IH]; intros w res w' H; [done|].
  cbn [receive] in H. unfold bind, time_Now, conn_SetReadDeadline in H. world_simpl.
  destruct (hd None (deadline_faults (script w))) as [e|] eqn:Hd.
  { unfold ret in H. loop_done H. }
  unfold conn_Read in H. destruct cap as [|c].
  - unfold file_Write in H. world_simpl.
    destruct (snd <$> hd None (file_write_faults (script w))) as [e|] eqn:Hf.
    { unfold ret in H. loop_done H. }
    apply IH in H as [evs Hevs]. eexists.
    eapply loop_run_step; [| | | |exact Hevs]; world_simpl;
      [by rewrite <- !app_assoc|done..].
  - unfold read_timeout in H. world_simpl.
    destruct (incoming (script w)) as [|[dt data|dt data err] rest] eqn:Hin;
      world_simpl;
      (destruct (timed_out _ _) eqn:Hto; world_simpl;
       [unfold ret in H; destruct (decide (netTimeout = io_EOF)); [done|]; loop_done H|]).
    + unfold ret in H. destruct (decide (io_EOF = io_EOF)); [|done]. loop_done H.
    + unfold file_Write in H. world_simpl.
      destruct (snd <$> hd None (file_write_faults (script w))) as [e|] eqn:Hf.
      { unfold ret in H. loop_done H. }
      apply IH in H as [evs Hevs]. eexists.
      eapply loop_run_step; [| | | |exact Hevs]; world_simpl;
        [by rewrite <- !app_assoc|done..].
    + unfold ret in H. destruct (decide (err = io_EOF)) as [->|Hne].
      * loop_done H.
      * loop_done H.
Qed.

Lemma pending_left c data rest :
  pending (match drop (S c) data with [] => rest | more => Arrive 0 more :: rest end)
  < pending (Arrive 0 data :: rest).
Proof.
  destruct (drop (S c) data) as [|b more] eqn:E; cbn [pending]; [lia|].
  assert (Hl : length (drop (S c) data) = S (length more)) by (by rewrite E).
  rewrite length_drop in Hl. cbn [length]. lia.
Qed.

(** With a buffer that is not empty the loop returns once the fuel exceeds
    what is pending on the connection. *)
Lemma receive_total file c fuel : forall w,
  pending (incoming (script w)) < fuel ->
  exists res w', receive fuel file (S c) w = Returned res w'.
Proof.
  induction fuel as [|fuel IH]; intros w Hfuel; [lia|].
  cbn [receive]. unfold bind, time_Now, conn_SetReadDeadline. world_simpl.
  destruct (hd None (deadline_faults (script w))); [by eexists _, _|].
  unfold conn_Read, read_timeout. world_simpl.
  destruct (incoming (script w)) as [|[dt data|dt data err] rest] eqn:Hin; world_simpl;
    (destruct (timed_out _ _); world_simpl;
     [unfold ret; destruct (decide (netTimeout = io_EOF)); by eexists _, _|]).
  - unfold ret. destruct (decide (io_EOF = io_EOF)); by eexists _, _.
  - unfold file_Write. world_simpl.
    destruct (snd <$> hd None (file_write_faults (script w))); [by eexists _, _|].
    apply IH. world_simpl.
    pose proof (pending_left c data rest). cbn [pending] in *. lia.
  - unfold ret. destruct (decide (err = io_EOF)); by eexists _, _.
Qed.

(** An event that is due within [ConnectionTimeout] of the moment at which
    the deadline was set is not too late. *)
Lemma fresh_deadline_holds t dt :
  (dt <= ConnectionTimeout)%Z ->
  deadline_passed (Some (t + ConnectionTimeout)%Z) (t + dt) = false.
Proof. intros H. unfold deadline_passed. apply Z.ltb_ge. lia. Qed.

Lemma ConnectionTimeout_pos : (0 <= ConnectionTimeout)%Z.
Proof. unfold ConnectionTimeout. lia. Qed.

(** One round of the loop that reads from an arrival and writes it out. *)
Lemma receive_round file c w dt data rest :
  no_loop_faults (script w) = true ->
  (dt <= ConnectionTimeout)%Z ->
  incoming (script w) = Arrive dt data :: rest ->
  exists w',
    (forall fuel, receive (S fuel) file (S c) w = receive fuel file (S c) w') /\
    no_loop_faults (script w') = true /\
    incoming (script w') =
      match drop (S c) data with [] => rest | more => Arrive 0 more :: rest end /\
    fs w' = alter (fun old => old ++ take (S c) data) (file_name file) (fs w) /\
    exists evs, trace w' = trace w ++ evs.
Proof.
  intros Hq Hdt Hin.
  pose proof Hq as [Hd Hf]%no_loop_faults_hd.
  eexists. split; [|split; [|split; [|split]]].
  - intros fuel.
    cbn [receive]. unfold bind, time_Now, conn_SetReadDeadline. world_simpl.
    rewrite Hd. unfold conn_Read, timed_out. world_simpl.
    rewrite Hin, fresh_deadline_holds by done.
    world_simpl. unfold file_Write. world_simpl.
    rewrite Hf. cbn [fmap option_fmap option_map snd]. reflexivity.
  - world_simpl. unfold no_loop_faults in *. world_simpl.
    apply andb_true_iff in Hq as [H1 H2].
    apply forallb_is_none_hd in H1 as [_ ->], H2 as [_ ->]. done.
  - reflexivity.
  - reflexivity.
  - world_simpl. eexists. rewrite <- !app_assoc. reflexivity.
Qed.

(** What is left of the chunks after one read of the first of them. *)
Lemma chunks_after_read c data cs :
  exists chunks1,
    arrivals chunks1 =
      match drop (S c) data with
      | [] => arrivals cs
      | more => Arrive 0 more :: arrivals cs
      end /\
    take (S c) data ++ payload chunks1 = data ++ payload cs /\
    pending (arrivals chunks1) < S (length data + pending (arrivals cs)) /\
    (timely cs = true -> timely chunks1 = true).
Proof.
  pose proof (take_drop (S c) data) as Htd.
  pose proof (length_drop data (S c)) as Hlen.
  destruct (drop (S c) data) as [|b more].
  - exists cs. rewrite app_nil_r in Htd. rewrite Htd.
    split; [done|]. split; [done|]. split; [lia|done].
  - exists ((0%Z, b :: more) :: cs). split; [done|]. split; [|split].
    + unfold payload. cbn [map snd concat]. by rewrite app_assoc, Htd.
    + cbn [arrivals map fst snd pending length] in *. fold (arrivals cs). lia.
    + intros Ht. unfold timely in *. cbn [forallb fst]. rewrite Ht.
      pose proof ConnectionTimeout_pos. by rewrite (proj2 (Z.leb_le _ _)).
Qed.

(** The loop copies a run of arrivals to the file and goes on with what
    follows them. *)
Lemma receive_arrivals file c m : forall chunks tail w,
  pending (arrivals chunks) <= m ->
  timely chunks = true ->
  incoming (script w) = arrivals chunks ++ tail ->
  no_loop_faults (script w) = true ->
  exists n w',
    (forall fuel, receive (n + fuel) file (S c) w = receive fuel file (S c) w') /\
    n <= pending (arrivals chunks) /\
    incoming (script w') = tail /\
    no_loop_faults (script w') = true /\
    fs w' = alter (fun old => old ++ payload chunks) (file_name file) (fs w) /\
    exists evs, trace w' = trace w ++ evs.
Proof.
  induction m as [|m IH]; intros chunks tail w Hm Hti Hin Hq.
  - destruct chunks as [|[dt data] cs]; [|cbn in Hm; lia].
    exists 0, w. repeat split; try done.
    + unfold payload. cbn. by rewrite alter_app_nil.
    + exists []. by rewrite app_nil_r.
  - destruct chunks as [|[dt data] cs].
    { exists 0, w. repeat split; try done.
      + unfold payload. cbn. by rewrite alter_app_nil.
      + exists []. by rewrite app_nil_r. }
    cbn [arrivals map fst snd app] in Hin.
    unfold timely in Hti. cbn [forallb fst] in Hti.
    apply andb_true_iff in Hti as [Hdt%Z.leb_le Hti]. fold (timely cs) in Hti.
    destruct (receive_round file c w dt data _ Hq Hdt Hin)
      as (w1 & Hstep & Hq1 & Hin1 & Hfs1 & evs1 & Htr1).
    destruct (chunks_after_read c data cs) as (chunks1 & Harr & Hpay & Hlt & Hti1).
    assert (Hin1' : incoming (script w1) = arrivals chunks1 ++ tail).
    { rewrite Hin1, Harr. by destruct (drop (S c) data). }
    cbn [arrivals map fst snd pending] in Hm.
    fold (arrivals cs) in Hm.
    destruct (IH chunks1 tail w1 ltac:(lia) (Hti1 Hti) Hin1' Hq1)
      as (n & w' & Hrun & Hn & Ht & Hq' & Hfs' & evs' & Htr').
    exists (S n), w'. repeat split; try done.
    + intros fuel. cbn [Nat.add]. by rewrite Hstep.
    + cbn [arrivals map fst snd pending]. fold (arrivals cs). lia.
    + rewrite Hfs', Hfs1, alter_app_app. by rewrite Hpay.
    + exists (evs1 ++ evs'). by rewrite Htr', Htr1, app_assoc.
Qed.

(** The round that ends the loop: a read that returns an error. *)
Lemma receive_fail fuel file c w dt data err rest :
  no_loop_faults (script w) = true ->
  (dt <= ConnectionTimeout)%Z ->
  incoming (script w) = Fail dt data err :: rest ->
  exists w',
    receive (S fuel) file (S c) w = Returned (read_verdict err) w' /\
    fs w' = fs w /\
    trace w' = trace w ++ [EvNow (clock w);
                           EvSetReadDeadline (clock w + ConnectionTimeout) None;
                           EvConnRead (S c) (take (S c) data) (Some err)].
Proof.
  intros [Hd _]%no_loop_faults_hd Hdt Hin. eexists. split; [|split].
  - cbn [receive]. unfold bind, time_Now, conn_SetReadDeadline. world_simpl.
    rewrite Hd. unfold conn_Read, timed_out. world_simpl.
    rewrite Hin, fresh_deadline_holds by done. world_simpl.
    unfold read_verdict, ret. destruct (decide (err = io_EOF)); reflexivity.
  - reflexivity.
  - world_simpl. by rewrite <- !app_assoc.
Qed.

(** The round that ends the loop: the peer has closed the connection. *)
Lemma receive_closed fuel file c w :
  no_loop_faults (script w) = true ->
  incoming (script w) = [] ->
  exists w',
    receive (S fuel) file (S c) w = Returned None w' /\
    fs w' = fs w /\
    trace w' = trace w ++ [EvNow (clock w);
                           EvSetReadDeadline (clock w + ConnectionTimeout) None;
                           EvConnRead (S c) [] (Some io_EOF)].
Proof.
  intros [Hd _]%no_loop_faults_hd Hin. eexists. split; [|split].
  - cbn [receive]. unfold bind, time_Now, conn_SetReadDeadline. world_simpl.
    rewrite Hd. unfold conn_Read, timed_out. world_simpl.
    rewrite Hin, fresh_deadline_holds by apply ConnectionTimeout_pos. world_simpl.
    unfold ret. destruct (decide (io_EOF = io_EOF)); [reflexivity|done].
  - reflexivity.
  - world_simpl. by rewrite <- !app_assoc.
Qed.

(** ** [downloadFile] *)

Lemma DefaultBufferSize_succ : DefaultBufferSize = S (Nat.pred DefaultBufferSize).
Proof. reflexivity. Qed.

(** The request line cannot be written. *)
Lemma downloadFile_request_failed fuel filename cap w n e :
  conn_write_fault (script w) = Some (n, e) ->
  downloadFile fuel filename cap w =
    Returned (Some (Errorf_w "error sending request" e))
             (emit (EvConnWrite (request_line filename) (Some e))
                   (set_sent (sent w ++ take n (request_line filename)) w)).
Proof.
  intros Hw. unfold downloadFile, bind, conn_Write. fold (request_line filename).
  rewrite Hw. reflexivity.
Qed.

(** The file cannot be created. *)
Lemma downloadFile_create_failed fuel filename cap w e :
  conn_write_fault (script w) = None ->
  create_fault (script w) = Some e ->
  downloadFile fuel filename cap w =
    Returned (Some (Errorf_w "error creating file" e))
             (emit (EvCreate filename (Some e))
                   (emit (EvConnWrite (request_line filename) None)
                         (set_sent (sent w ++ request_line filename) w))).
Proof.
  intros Hw Hc. unfold downloadFile, bind, conn_Write. fold (request_line filename).
  rewrite Hw. cbn [fmap option_fmap option_map snd]. unfold os_Create. world_simpl.
  rewrite Hc. reflexivity.
Qed.

(** The request is out and the file is there: the loop runs, and the file
    is closed when it returns. *)
Lemma downloadFile_started fuel filename cap w :
  conn_write_fault (script w) = None ->
  create_fault (script w) = None ->
  downloadFile fuel filename cap w =
    defer (file_Close {| file_name := filename |})
          (receive fuel {| file_name := filename |} cap) (started filename w).
Proof.
  intros Hw Hc. unfold downloadFile, bind, conn_Write. fold (request_line filename).
  rewrite Hw. cbn [fmap option_fmap option_map snd]. unfold os_Create. world_simpl.
  rewrite Hc. reflexivity.
Qed.

Lemma downloadFile_not_exited fuel filename cap w code w' :
  downloadFile fuel filename cap w <> Exited code w'.
Proof.
  destruct (conn_write_fault (script w)) as [[n e]|] eqn:Hw.
  { by rewrite (downloadFile_request_failed _ _ _ _ n e). }
  destruct (create_fault (script w)) as [e|] eqn:Hc.
  { by rewrite (downloadFile_create_failed _ _ _ _ e). }
  rewrite downloadFile_started by done. unfold defer.
  destruct (receive fuel _ cap (started filename w)) as [res w3|c w3|] eqn:Hr; [done| |done].
  by apply receive_not_exited in Hr.
Qed.

Lemma downloadFile_total fuel filename c w :
  pending (incoming (script w)) < fuel ->
  exists res w', downloadFile fuel filename (S c) w = Returned res w'.
Proof.
  intros Hfuel.
  destruct (conn_write_fault (script w)) as [[n e]|] eqn:Hw.
  { rewrite (downloadFile_request_failed _ _ _ _ n e) by done. by eexists _, _. }
  destruct (create_fault (script w)) as [e|] eqn:Hc.
  { rewrite (downloadFile_create_failed _ _ _ _ e) by done. by eexists _, _. }
  rewrite downloadFile_started by done. unfold defer.
  destruct (receive_total {| file_name := filename |} c fuel (started filename w))
    as (res & w3 & ->); [done|].
  by eexists _, _.
Qed.

(** The three ways in which [downloadFile] returns. *)
Lemma downloadFile_run fuel filename cap w res w' :
  downloadFile fuel filename cap w = Returned res w' ->
  exists evs,
    trace w' = trace w ++ evs /\ stdout w' = stdout w /\ logfile w' = logfile w /\
    ((exists n e, conn_write_fault (script w) = Some (n, e) /\
                  evs = [EvConnWrite (request_line filename) (Some e)] /\
                  res = Some (Errorf_w "error sending request" e) /\
                  fs w' = fs w)
     \/ (exists e, conn_write_fault (script w) = None /\
                   create_fault (script w) = Some e /\
                   evs = [EvConnWrite (request_line filename) None;
                          EvCreate filename (Some e)] /\
                   res = Some (Errorf_w "error creating file" e) /\
                   fs w' = fs w)
     \/ (exists w3 loop_evs,
           conn_write_fault (script w) = None /\
           create_fault (script w) = None /\
           evs = EvConnWrite (request_line filename) None
                   :: EvCreate filename None :: loop_evs ++ [EvFileClose filename] /\
           loop_run res (started filename w) w3 loop_evs /\
           w' = emit (EvFileClose filename) w3)).
Proof.
  intros H.
  destruct (conn_write_fault (script w)) as [[n e]|] eqn:Hw.
  { rewrite (downloadFile_request_failed _ _ _ _ n e) in H by done.
    injection H as <- <-. eexists. split; [|split; [|split]];
      [reflexivity..|left; by eexists _, _]. }
  destruct (create_fault (script w)) as [e|] eqn:Hc.
  { rewrite (downloadFile_create_failed _ _ _ _ e) in H by done.
    injection H as <- <-. eexists. split; [|split; [|split]];
      [world_simpl; by rewrite <- app_assoc|reflexivity..|right; left; by eexists]. }
  rewrite downloadFile_started in H by done. unfold defer in H.
  destruct (receive fuel _ cap (started filename w)) as [res3 w3|c w3|] eqn:Hr; [|done..].
  cbn in H. injection H as <- <-.
  destruct (receive_loop_run _ _ _ _ _ _ Hr) as [loop_evs Hrun].
  pose proof Hrun as [Htr _ _ _ _ _ _ Hso Hlg _].
  exists (EvConnWrite (request_line filename) None
            :: EvCreate filename None :: loop_evs ++ [EvFileClose filename]).
  split; [|split; [|split]].
  - world_simpl. rewrite Htr. world_simpl. rewrite <- !app_assoc. reflexivity.
  - world_simpl. by rewrite Hso.
  - world_simpl. by rewrite Hlg.
  - right; right. by eexists _, _.
Qed.

(** A download that meets no fault of its own copies a run of arrivals and
    goes on with what follows them. *)
Lemma download_prefix filename c w chunks tail :
  no_local_faults (script w) = true ->
  timely chunks = true ->
  incoming (script w) = arrivals chunks ++ tail ->
  exists n w1,
    n <= pending (arrivals chunks) /\
    (forall fuel,
        downloadFile (n + fuel) filename (S c) w =
          defer (file_Close {| file_name := filename |})
                (receive fuel {| file_name := filename |} (S c)) w1) /\
    incoming (script w1) = tail /\
    no_loop_faults (script w1) = true /\
    fs w1 = <[filename := payload chunks]> (fs w) /\
    exists evs, trace w1 = trace w ++ evs.
Proof.
  unfold no_local_faults. intros [[Hw Hc]%andb_true_iff Hq]%andb_true_iff Hti Hin.
  destruct (conn_write_fault (script w)) eqn:Ew; [done|].
  destruct (create_fault (script w)) eqn:Ec; [done|].
  destruct (receive_arrivals {| file_name := filename |} c _ chunks tail
              (started filename w) (le_n _) Hti Hin Hq)
    as (n & w1 & Hrun & Hn & Ht & Hq1 & Hfs & evs & Htr).
  exists n, w1. repeat split; try done.
  - intros fuel. rewrite downloadFile_started by done. unfold defer. by rewrite Hrun.
  - rewrite Hfs. world_simpl. by rewrite alter_insert_eq.
  - world_simpl. eexists. rewrite Htr, <- !app_assoc. reflexivity.
Qed.

(** * The claims about [downloadFile] *)

(** The file holds exactly the bytes of the chunks, for any buffer that is
    not empty. *)
Lemma download_any_buffer_exact (w : World) (filename : string)
      (chunks : list (Z * list byte)) (close_delay : Z) (c fuel : nat) :
  no_local_faults (script w) = true ->
  timely chunks = true ->
  (close_delay <= ConnectionTimeout)%Z ->
  incoming (script w) = server_writes chunks close_delay ->
  pending (incoming (script w)) < fuel ->
  exists w',
    downloadFile fuel filename (S c) w = Returned None w' /\
    fs w' !! filename = Some (payload chunks).
Proof.
  intros Hq Hti Hdt Hin Hfuel.
  destruct (download_prefix filename c w chunks _ Hq Hti Hin)
    as (n & w1 & Hn & Hrun & Hin1 & Hq1 & Hfs1 & _).
  rewrite Hin in Hfuel. unfold server_writes in Hfuel.
  assert (Hp : pending (arrivals chunks ++ [Fail close_delay [] io_EOF])
               = S (pending (arrivals chunks))).
  { clear. induction (arrivals chunks) as [|[dt data|dt data err] l IH];
      cbn [app pending]; [done|rewrite IH; lia..]. }
  rewrite Hp in Hfuel.
  replace fuel with (n + S (fuel - n - 1)) by lia.
  rewrite Hrun. unfold defer.
  destruct (receive_fail (fuel - n - 1) {| file_name := filename |} c w1 _ _ _ _
              Hq1 Hdt Hin1)
    as (w2 & -> & Hfs2 & _).
  eexists. split; [reflexivity|].
  world_simpl. by rewrite Hfs2, Hfs1, lookup_insert_eq.
Qed.

(** C2: when the server writes the bytes of [chunks], in chunks of any
    sizes, and then closes the connection, when no chunk and not the close
    keeps a read waiting longer than [ConnectionTimeout], and nothing fails
    on the client's side, [downloadFile] with the buffer of 8192 bytes
    returns [nil], given enough fuel, and the output file holds exactly
    those bytes in order. *)
Theorem download_exact_bytes (w : World) (filename : string)
        (chunks : list (Z * list byte)) (close_delay : Z) (fuel : nat) :
  no_local_faults (script w) = true ->
  timely chunks = true ->
  (close_delay <= ConnectionTimeout)%Z ->
  incoming (script w) = server_writes chunks close_delay ->
  pending (incoming (script w)) < fuel ->
  exists w',
    downloadFile fuel filename DefaultBufferSize w = Returned None w' /\
    fs w' !! filename = Some (payload chunks).
Proof.
  rewrite DefaultBufferSize_succ. apply download_any_buffer_exact.
Qed.

Lemma download_exact_bytes_witness :
  exists w',
    downloadFile 20 "test.txt" DefaultBufferSize Sample.w_slow = Returned None w' /\
    fs w' !! "test.txt" = Some (payload Sample.slow).
Proof.
  apply (download_exact_bytes Sample.w_slow "test.txt" Sample.slow 20000000000 20).
  - reflexivity.
  - reflexivity.
  - unfold ConnectionTimeout. lia.
  - reflexivity.
  - cbn. lia.
Defined.

(** A chunk larger than the buffer is read in pieces and arrives whole. *)
Example download_small_buffer :
  exists w',
    downloadFile 20 "test.txt" 4 Sample.w_slow = Returned None w' /\
    fs w' !! "test.txt" = Some (Sample.bytes "hello world") /\
    List.filter (fun e => match e with EvFileWrite _ _ _ => true | _ => false end)
                (emitted Sample.w_slow w')
    = [EvFileWrite "test.txt" (Sample.bytes "hell") None;
       EvFileWrite "test.txt" (Sample.bytes "o") None;
       EvFileWrite "test.txt" (Sample.bytes " wor") None;
       EvFileWrite "test.txt" (Sample.bytes "ld") None].
Proof. eexists. split; [|split]; vm_compute; reflexivity. Qed.

(** When the peer has closed before the first read, the file is empty. *)
Example download_nothing :
  exists w',
    downloadFile 20 "test.txt" DefaultBufferSize (Sample.fresh Sample.quiet)
      = Returned None w' /\
    fs w' !! "test.txt" = Some [].
Proof. eexists. split; vm_compute; reflexivity. Qed.

(** C4: a read that reports [io.EOF] ends [downloadFile] with [nil]; a read
    that reports any other error, a timeout included, ends it with the
    error wrapped as a read error; and [nil] is returned only after a read
    that reported [io.EOF]. *)
Theorem eof_is_success_other_read_errors_fail (fuel : nat) (filename : string)
        (cap : nat) (w : World) :
  0 < cap ->
  pending (incoming (script w)) < fuel ->
  exists res w',
    downloadFile fuel filename cap w = Returned res w' /\
    (forall c d e, In (EvConnRead c d (Some e)) (emitted w w') ->
       (e = io_EOF -> res = None) /\
       (e <> io_EOF ->
        res = Some (Errorf_w "error reading data from connection" e))) /\
    (res = None -> exists c d, In (EvConnRead c d (Some io_EOF)) (emitted w w')).
Proof.
  intros Hcap Hfuel. destruct cap as [|c]; [lia|].
  destruct (downloadFile_total fuel filename c w Hfuel) as (res & w' & Hret).
  exists res, w'. split; [done|].
  destruct (downloadFile_run _ _ _ _ _ _ Hret)
    as (evs & Htr & _ & _ & [(n & e & _ & -> & -> & _)
                            |[(e & _ & _ & -> & -> & _)
                             |(w3 & levs & _ & _ & -> & Hrun & _)]]);
    rewrite (emitted_app _ _ _ Htr).
  - split; [|done]. intros c0 d e0 [H|[]]. discriminate H.
  - split; [|done]. intros c0 d e0 [H|[H|[]]]; discriminate H.
  - destruct Hrun as [_ _ _ _ Hrd _ Heof _ _ _]. split.
    + intros c0 d e [H|[H|H]]; [discriminate H..|].
      apply in_app_or in H as [H|[H|[]]]; [|discriminate H].
      rewrite (Hrd _ _ _ H). unfold read_verdict. by case_decide.
    + intros Hres. destruct (Heof Hres) as (c0 & d & Hlast).
      exists c0, d. right; right. apply in_or_app. left.
      apply list_elem_of_In. by eapply last_Some_elem_of.
Qed.

Lemma eof_is_success_other_read_errors_fail_witness :
  exists res w',
    downloadFile 20 "test.txt" 8 Sample.w_timeout = Returned res w' /\
    (forall c d e, In (EvConnRead c d (Some e)) (emitted Sample.w_timeout w') ->
       (e = io_EOF -> res = None) /\
       (e <> io_EOF ->
        res = Some (Errorf_w "error reading data from connection" e))) /\
    (res = None ->
     exists c d, In (EvConnRead c d (Some io_EOF)) (emitted Sample.w_timeout w')).
Proof.
  apply (eof_is_success_other_read_errors_fail 20 "test.txt" 8 Sample.w_timeout).
  - lia.
  - cbn. lia.
Defined.

(** The timeout of the sample is returned wrapped. *)
Example timeout_is_a_read_error :
  exists w',
    downloadFile 20 "test.txt" 8 Sample.w_timeout =
      Returned (Some (wrapError "error reading data from connection: i/o timeout"
                                netTimeout)) w'.
Proof. eexists. vm_compute. reflexivity. Qed.

(** C5: when the last read returns bytes together with [io.EOF], the loop
    ends without writing them: [downloadFile] returns [nil] and the output
    file holds the bytes of the earlier reads only.  (Nothing fails on the
    client's side and nothing is later than the read timeout.) *)
Theorem eof_with_data_drops_the_data (w : World) (filename : string)
        (chunks : list (Z * list byte)) (dt : Z) (data : list byte)
        (rest : list ReadEv) (cap fuel : nat) :
  0 < cap ->
  no_local_faults (script w) = true ->
  timely chunks = true ->
  (dt <= ConnectionTimeout)%Z ->
  incoming (script w) = arrivals chunks ++ Fail dt data io_EOF :: rest ->
  pending (arrivals chunks) < fuel ->
  exists w',
    downloadFile fuel filename cap w = Returned None w' /\
    In (EvConnRead cap (take cap data) (Some io_EOF)) (emitted w w') /\
    fs w' !! filename = Some (payload chunks) /\
    (data <> [] -> fs w' !! filename <> Some (payload chunks ++ take cap data)).
Proof.
  intros Hcap Hq Hti Hdt Hin Hfuel. destruct cap as [|c]; [lia|].
  destruct (download_prefix filename c w chunks _ Hq Hti Hin)
    as (n & w1 & Hn & Hrun & Hin1 & Hq1 & Hfs1 & evs1 & Htr1).
  replace fuel with (n + S (fuel - n - 1)) by lia.
  rewrite Hrun. unfold defer.
  destruct (receive_fail (fuel - n - 1) {| file_name := filename |} c w1 _ _ _ _
              Hq1 Hdt Hin1)
    as (w2 & -> & Hfs2 & Htr2).
  assert (Hfile : fs w2 !! filename = Some (payload chunks))
    by (by rewrite Hfs2, Hfs1, lookup_insert_eq).
  eexists. split; [reflexivity|]. split; [|split].
  - erewrite emitted_app; last first.
    { world_simpl. rewrite Htr2, Htr1, <- !app_assoc. reflexivity. }
    apply in_or_app. right. cbn. auto.
  - exact Hfile.
  - intros Hne. world_simpl. rewrite Hfile. intros [= Heq].
    rewrite <- (app_nil_r (payload chunks)) in Heq at 1.
    apply app_inv_head in Heq. by destruct data.
Qed.

Lemma eof_with_data_drops_the_data_witness :
  exists w',
    downloadFile 20 "test.txt" 8 Sample.w_eof_data = Returned None w' /\
    In (EvConnRead 8 (take 8 (Sample.bytes " world")) (Some io_EOF))
       (emitted Sample.w_eof_data w') /\
    fs w' !! "test.txt" = Some (payload [(5%Z, Sample.bytes "hello")]) /\
    (Sample.bytes " world" <> [] ->
     fs w' !! "test.txt"
       <> Some (payload [(5%Z, Sample.bytes "hello")] ++ take 8 (Sample.bytes " world"))).
Proof.
  apply (eof_with_data_drops_the_data Sample.w_eof_data "test.txt"
           [(5%Z, Sample.bytes "hello")] 7 (Sample.bytes " world") [] 8 20).
  - lia.
  - reflexivity.
  - reflexivity.
  - unfold ConnectionTimeout. lia.
  - reflexivity.
  - cbn. lia.
Defined.

(** C6: in every round of the loop the clock is read and the read deadline
    is set to that time plus [ConnectionTimeout] right before the read, so
    every read comes right after a successful [SetReadDeadline] of its own;
    and when [SetReadDeadline] fails, [downloadFile] returns that error
    wrapped as a deadline error. *)
Theorem read_deadline_rearmed_each_round (fuel : nat) (filename : string)
        (cap : nat) (w : World) :
  0 < cap ->
  pending (incoming (script w)) < fuel ->
  exists res w',
    downloadFile fuel filename cap w = Returned res w' /\
    reads_armed (emitted w w') = true /\
    (forall t e, In (EvSetReadDeadline t (Some e)) (emitted w w') ->
       res = Some (Errorf_w "error setting read deadline" e)).
Proof.
  intros Hcap Hfuel. destruct cap as [|c]; [lia|].
  destruct (downloadFile_total fuel filename c w Hfuel) as (res & w' & Hret).
  exists res, w'. split; [done|].
  destruct (downloadFile_run _ _ _ _ _ _ Hret)
    as (evs & Htr & _ & _ & [(n & e & _ & -> & -> & _)
                            |[(e & _ & _ & -> & -> & _)
                             |(w3 & levs & _ & _ & -> & Hrun & _)]]);
    rewrite (emitted_app _ _ _ Htr).
  - split; [reflexivity|]. intros t e0 [H|[]]. discriminate H.
  - split; [reflexivity|]. intros t e0 [H|[H|[]]]; discriminate H.
  - destruct Hrun as [_ Harm _ Hdl _ _ _ _ _ _]. split.
    + apply (reads_armed_app [_; _]); [reflexivity|].
      apply reads_armed_app; [done|reflexivity].
    + intros t e [H|[H|H]]; [discriminate H..|].
      apply in_app_or in H as [H|[H|[]]]; [|discriminate H].
      by apply (Hdl t).
Qed.

Lemma read_deadline_rearmed_each_round_witness :
  exists res w',
    downloadFile 20 "test.txt" 8 Sample.w_deadline = Returned res w' /\
    reads_armed (emitted Sample.w_deadline w') = true /\
    (forall t e, In (EvSetReadDeadline t (Some e)) (emitted Sample.w_deadline w') ->
       res = Some (Errorf_w "error setting read deadline" e)).
Proof.
  apply (read_deadline_rearmed_each_round 20 "test.txt" 8 Sample.w_deadline).
  - lia.
  - cbn. lia.
Defined.

(** A transfer of 60 seconds succeeds, because no single read waits longer
    than [ConnectionTimeout]. *)
Example slow_transfer_succeeds :
  exists w',
    downloadFile 20 "test.txt" 8 Sample.w_slow = Returned None w' /\
    clock w' = 60000000000%Z /\
    fs w' !! "test.txt" = Some (Sample.bytes "hello world").
Proof. eexists. split; [|split]; vm_compute; reflexivity. Qed.

(** A server that stays silent makes the first read time out when its
    deadline is reached, 30 seconds after the loop started. *)
Example stalled_server_times_out :
  exists w',
    downloadFile 20 "test.txt" 8 Sample.w_stalled =
      Returned (Some (wrapError "error reading data from connection: i/o timeout"
                                netTimeout)) w' /\
    clock w' = ConnectionTimeout /\
    fs w' !! "test.txt" = Some [].
Proof. eexists. split; [|split]; vm_compute; reflexivity. Qed.

(** The deadlines of the sample follow the clock: 0 + 30 s, then 5 ns + 30 s. *)
Example deadlines_follow_the_clock :
  exists w',
    downloadFile 20 "test.txt" 8 Sample.w_deadline =
      Returned (Some (wrapError
                  "error setting read deadline: use of closed network connection"
                  (errorString "use of closed network connection"))) w' /\
    List.filter (fun e => match e with EvSetReadDeadline _ _ => true | _ => false end)
           (emitted Sample.w_deadline w')
    = [EvSetReadDeadline 30000000000 None;
       EvSetReadDeadline 30000000005
         (Some (errorString "use of closed network connection"))].
Proof. eexists. split; vm_compute; reflexivity. Qed.

(** C7: when the request line cannot be written, [downloadFile] returns the
    error wrapped as a request error, creates no file and leaves the file
    system as it was; otherwise the first thing it does is to write the
    whole line [GET <filename>\n] to the connection, and only then, and
    only once, it creates the file. *)
Theorem request_written_before_file_created (fuel : nat) (filename : string)
        (cap : nat) (w : World) :
  (forall n e,
      conn_write_fault (script w) = Some (n, e) ->
      exists w',
        downloadFile fuel filename cap w =
          Returned (Some (Errorf_w "error sending request" e)) w' /\
        fs w' = fs w /\
        emitted w w' = [EvConnWrite (request_line filename) (Some e)]) /\
  (conn_write_fault (script w) = None ->
   0 < cap ->
   pending (incoming (script w)) < fuel ->
   exists res w' r evs,
     downloadFile fuel filename cap w = Returned res w' /\
     emitted w w' =
       EvConnWrite (request_line filename) None :: EvCreate filename r :: evs /\
     (forall name r', ~ In (EvCreate name r') evs) /\
     sent w' = sent w ++ request_line filename).
Proof.
  split.
  - intros n e Hw. eexists. split; [by apply downloadFile_request_failed|].
    split; [reflexivity|]. by apply emitted_app.
  - intros Hw Hcap Hfuel. destruct cap as [|c]; [lia|].
    destruct (downloadFile_total fuel filename c w Hfuel) as (res & w' & Hret).
    destruct (downloadFile_run _ _ _ _ _ _ Hret)
      as (evs & Htr & _ & _ & [(n & e & Hw' & _)
                              |[(e & _ & Hc & -> & -> & _)
                               |(w3 & levs & _ & Hc & -> & Hrun & ->)]]);
      [congruence| |].
    + exists (Some (Errorf_w "error creating file" e)), w', (Some e), [].
      split; [done|]. split; [by apply emitted_app|]. split; [by intros ? ? []|].
      rewrite (downloadFile_create_failed _ _ _ _ e) in Hret by done.
      by injection Hret as <-.
    + exists res, (emit (EvFileClose filename) w3), None,
             (levs ++ [EvFileClose filename]).
      split; [done|]. split; [by apply emitted_app|].
      destruct Hrun as [_ _ Hev _ _ _ _ _ _ Hse]. split.
      * intros name r' [H|[H|[]]]%in_app_or; [|discriminate H].
        rewrite forallb_forall in Hev. by apply Hev in H.
      * world_simpl. by rewrite Hse.
Qed.

Lemma request_written_before_file_created_witness :
  (exists w',
      downloadFile 20 "test.txt" 8 Sample.w_request =
        Returned (Some (Errorf_w "error sending request" (errorString "broken pipe"))) w' /\
      fs w' = fs Sample.w_request /\
      emitted Sample.w_request w' =
        [EvConnWrite (request_line "test.txt") (Some (errorString "broken pipe"))]) /\
  (exists res w' r evs,
      downloadFile 20 "test.txt" 8 Sample.w_hello = Returned res w' /\
      emitted Sample.w_hello w' =
        EvConnWrite (request_line "test.txt") None :: EvCreate "test.txt" r :: evs /\
      (forall name r', ~ In (EvCreate name r') evs) /\
      sent w' = sent Sample.w_hello ++ request_line "test.txt").
Proof.
  split.
  - apply (proj1 (request_written_before_file_created 20 "test.txt" 8 Sample.w_request)
                 4 (errorString "broken pipe")).
    reflexivity.
  - apply (proj2 (request_written_before_file_created 20 "test.txt" 8 Sample.w_hello)).
    + reflexivity.
    + lia.
    + cbn. lia.
Defined.

(** ** [main] *)

(** The server cannot be reached. *)
Lemma main_with_dial_failed filename fuel w e :
  dial_fault (script w) = Some e ->
  main_with filename fuel w =
    Exited 1 (emit (EvExit 1)
                   (printed (Sprintln ["error connecting to server:"; Error e])
                            (emit (EvDial "tcp" ServerAddress ConnectionTimeout (Some e)) w))).
Proof.
  intros Hd. unfold main_with, bind, net_DialTimeout. rewrite Hd. reflexivity.
Qed.

(** The log cannot be opened. *)
Lemma main_with_openlog_failed filename fuel w e :
  dial_fault (script w) = None ->
  openlog_fault (script w) = Some e ->
  main_with filename fuel w =
    Exited 1 (emit (EvExit 1)
                   (printed (Sprintln ["error creating log file:"; Error e])
                            (emit (EvOpenLog DefaultLogFilename (Some e))
                                  (emit (EvDial "tcp" ServerAddress ConnectionTimeout None)
                                        w)))).
Proof.
  intros Hd Ho. unfold main_with, bind, net_DialTimeout. rewrite Hd.
  unfold defer, os_OpenFile_append. world_simpl. rewrite Ho. reflexivity.
Qed.

(** The file name is rejected. *)
Lemma main_with_invalid filename fuel w e :
  dial_fault (script w) = None ->
  openlog_fault (script w) = None ->
  validateFilename filename = Some e ->
  main_with filename fuel w =
    Exited 1 (emit (EvExit 1)
                   (logged (Sprintln ["invalid filename:"; Error e]) (connected w))).
Proof.
  intros Hd Ho Hv. unfold main_with, bind, net_DialTimeout. rewrite Hd.
  unfold defer, os_OpenFile_append. world_simpl. rewrite Ho, Hv. reflexivity.
Qed.

(** The download is started; what [main] does with its result. *)
Lemma main_with_download filename fuel w :
  dial_fault (script w) = None ->
  openlog_fault (script w) = None ->
  validateFilename filename = None ->
  main_with filename fuel w =
    match downloadFile fuel filename DefaultBufferSize (connected w) with
    | Returned (Some e) w2 =>
        Exited 1 (emit (EvExit 1)
                       (logged (Sprintln ["error downloading file:"; Error e]) w2))
    | Returned None w2 =>
        Returned tt (emit EvConnClose
                          (emit EvLogClose
                                (logged ("downloaded file " +:+ filename +:+ newline) w2)))
    | Exited c w2 => Exited c w2
    | OutOfFuel => OutOfFuel
    end.
Proof.
  intros Hd Ho Hv. unfold main_with, bind, net_DialTimeout. rewrite Hd.
  unfold defer, os_OpenFile_append. world_simpl. rewrite Ho, Hv.
  fold (connected w).
  destruct (downloadFile fuel filename DefaultBufferSize (connected w))
    as [[e|] w2|c w2|]; reflexivity.
Qed.

(** The five ways in which the process ends. *)
Lemma run_with_cases filename fuel w code w' :
  run_with filename fuel w = Some (code, w') ->
  (exists e, dial_fault (script w) = Some e /\ code = 1%Z /\
     w' = emit (EvExit 1)
               (printed (Sprintln ["error connecting to server:"; Error e])
                        (emit (EvDial "tcp" ServerAddress ConnectionTimeout (Some e)) w)))
  \/ (exists e, dial_fault (script w) = None /\ openlog_fault (script w) = Some e /\
        code = 1%Z /\
        w' = emit (EvExit 1)
                  (printed (Sprintln ["error creating log file:"; Error e])
                           (emit (EvOpenLog DefaultLogFilename (Some e))
                                 (emit (EvDial "tcp" ServerAddress ConnectionTimeout None)
                                       w))))
  \/ (exists e, dial_fault (script w) = None /\ openlog_fault (script w) = None /\
        validateFilename filename = Some e /\ code = 1%Z /\
        w' = emit (EvExit 1)
                  (logged (Sprintln ["invalid filename:"; Error e]) (connected w)))
  \/ (exists e w2, dial_fault (script w) = None /\ openlog_fault (script w) = None /\
        validateFilename filename = None /\
        downloadFile fuel filename DefaultBufferSize (connected w)
          = Returned (Some e) w2 /\
        code = 1%Z /\
        w' = emit (EvExit 1)
                  (logged (Sprintln ["error downloading file:"; Error e]) w2))
  \/ (exists w2, dial_fault (script w) = None /\ openlog_fault (script w) = None /\
        validateFilename filename = None /\
        downloadFile fuel filename DefaultBufferSize (connected w) = Returned None w2 /\
        code = 0%Z /\
        w' = emit (EvExit 0)
                  (emit EvConnClose
                        (emit EvLogClose
                              (logged ("downloaded file " +:+ filename +:+ newline) w2)))).
Proof.
  unfold run_with. intros H.
  destruct (dial_fault (script w)) as [e|] eqn:Hd.
  { rewrite (main_with_dial_failed _ _ _ e) in H by done.
    injection H as <- <-. left. by exists e. }
  destruct (openlog_fault (script w)) as [e|] eqn:Ho.
  { rewrite (main_with_openlog_failed _ _ _ e) in H by done.
    injection H as <- <-. right; left. by exists e. }
  destruct (validateFilename filename) as [e|] eqn:Hv.
  { rewrite (main_with_invalid _ _ _ e) in H by done.
    injection H as <- <-. right; right; left. by exists e. }
  rewrite main_with_download in H by done.
  destruct (downloadFile fuel filename DefaultBufferSize (connected w))
    as [[e|] w2|c w2|] eqn:Hdl.
  - injection H as <- <-. right; right; right; left. by exists e, w2.
  - injection H as <- <-. right; right; right; right. by exists w2.
  - by apply downloadFile_not_exited in Hdl.
  - done.
Qed.

Lemma validateFilename_test_txt : validateFilename "test.txt" = None.
Proof. reflexivity. Qed.

Lemma count_event_loop e evs :
  is_loop_event e = false ->
  forallb is_loop_event evs = true ->
  count_event e evs = 0.
Proof.
  intros He Hall. unfold count_event. apply count_occ_not_In.
  intros Hin. rewrite forallb_forall in Hall. apply Hall in Hin. congruence.
Qed.

(** A download that has created its file has closed it once when it
    returns, and one that has not has closed nothing. *)
Lemma downloadFile_closes_its_file_once fuel filename cap w res w' :
  downloadFile fuel filename cap w = Returned res w' ->
  count_event (EvFileClose filename) (emitted w w')
  = count_event (EvCreate filename None) (emitted w w')
  /\ count_event (EvCreate filename None) (emitted w w') <= 1.
Proof.
  intros Hret.
  destruct (downloadFile_run _ _ _ _ _ _ Hret)
    as (evs & Htr & _ & _ & [(n & e & _ & -> & _)
                            |[(e & _ & _ & -> & _)
                             |(w3 & levs & _ & _ & -> & Hrun & _)]]);
    rewrite (emitted_app _ _ _ Htr).
  - unfold count_event. cbn [count_occ].
    repeat (destruct (Event_eq_dec _ _); try congruence). lia.
  - unfold count_event. cbn [count_occ].
    repeat (destruct (Event_eq_dec _ _); try congruence). lia.
  - destruct Hrun as [_ _ Hev _ _ _ _ _ _ _].
    unfold count_event.
    change (EvConnWrite (request_line filename) None
              :: EvCreate filename None :: levs ++ [EvFileClose filename])
      with ([EvConnWrite (request_line filename) None; EvCreate filename None]
              ++ levs ++ [EvFileClose filename]).
    rewrite !count_occ_app.
    pose proof (count_event_loop (EvFileClose filename) levs eq_refl Hev) as H1.
    pose proof (count_event_loop (EvCreate filename None) levs eq_refl Hev) as H2.
    unfold count_event in H1, H2. rewrite H1, H2. cbn [count_occ].
    repeat (destruct (Event_eq_dec _ _); try congruence). lia.
Qed.

(** What a download adds to the trace: its request, its file, the rounds of
    the loop. *)
Lemma downloadFile_events fuel filename cap w res w' :
  downloadFile fuel filename cap w = Returned res w' ->
  exists evs,
    trace w' = trace w ++ evs /\
    forall ev, In ev evs ->
      (exists r, ev = EvConnWrite (request_line filename) r)
      \/ (exists r, ev = EvCreate filename r)
      \/ is_loop_event ev = true
      \/ ev = EvFileClose filename.
Proof.
  intros Hret.
  destruct (downloadFile_run _ _ _ _ _ _ Hret)
    as (evs & Htr & _ & _ & [(n & e & _ & -> & _)
                            |[(e & _ & _ & -> & _)
                             |(w3 & levs & _ & _ & -> & Hrun & _)]]);
    eexists; (split; [exact Htr|]).
  - intros ev [<-|[]]. left. by eexists.
  - intros ev [<-|[<-|[]]]; [left|right; left]; by eexists.
  - destruct Hrun as [_ _ Hev _ _ _ _ _ _ _]. rewrite forallb_forall in Hev.
    intros ev [<-|[<-|H]]; [left; by eexists|right; left; by eexists|].
    apply in_app_or in H as [H|[<-|[]]]; [|by repeat right].
    right; right; left. by apply Hev.
Qed.

(** What the program writes to the connection, which file it creates, and
    what it logs. *)
Lemma run_with_events filename fuel w code w' :
  run_with filename fuel w = Some (code, w') ->
  exists evs,
    trace w' = trace w ++ evs /\
    forall ev, In ev evs ->
      (forall data r, ev = EvConnWrite data r -> data = request_line filename) /\
      (forall name r, ev = EvCreate name r -> name = filename) /\
      (forall line, ev = EvLogPrint line ->
         line = "downloaded file " +:+ filename +:+ newline
         \/ (exists e, line = Sprintln ["error downloading file:"; Error e])
         \/ (exists e, validateFilename filename = Some e /\
                       line = Sprintln ["invalid filename:"; Error e])).
Proof.
  intros H.
  destruct (run_with_cases _ _ _ _ _ H)
    as [(e & _ & _ & ->)
       |[(e & _ & _ & _ & ->)
        |[(e & _ & _ & Hv & _ & ->)
         |[(e & w2 & _ & _ & _ & Hdl & _ & ->)
          |(w2 & _ & _ & _ & Hdl & _ & ->)]]]].
  - eexists. split; [world_simpl; rewrite <- !app_assoc; reflexivity|].
    intros ev Hin. cbn in Hin.
    intuition (subst; try discriminate).
  - eexists. split; [world_simpl; rewrite <- !app_assoc; reflexivity|].
    intros ev Hin. cbn in Hin.
    intuition (subst; try discriminate).
  - eexists. split; [world_simpl; rewrite <- !app_assoc; reflexivity|].
    intros ev Hin. cbn [In app] in Hin.
    destruct Hin as [<-|[<-|[<-|[<-|[]]]]]; repeat split; try discriminate.
    intros line [= <-]. right; right. by exists e.
  - destruct (downloadFile_events _ _ _ _ _ _ Hdl) as (devs & Htr & Hdevs).
    exists ([EvDial "tcp" ServerAddress ConnectionTimeout None;
             EvOpenLog DefaultLogFilename None]
              ++ devs
              ++ [EvLogPrint (Sprintln ["error downloading file:"; Error e]); EvExit 1]).
    split; [world_simpl; rewrite Htr; world_simpl; by rewrite <- !app_assoc|].
    intros ev [Hin|[Hin|Hin]%in_app_or]%in_app_or.
    + cbn in Hin. intuition (subst; try discriminate).
    + destruct (Hdevs ev Hin) as [[r ->]|[[r ->]|[Hl| ->]]];
        repeat split; try discriminate; try congruence.
      all: intros; subst; discriminate.
    + destruct Hin as [<-|[<-|[]]]; repeat split; try discriminate.
      intros line [= <-]. right; left. by exists e.
  - destruct (downloadFile_events _ _ _ _ _ _ Hdl) as (devs & Htr & Hdevs).
    exists ([EvDial "tcp" ServerAddress ConnectionTimeout None;
             EvOpenLog DefaultLogFilename None]
              ++ devs
              ++ [EvLogPrint ("downloaded file " +:+ filename +:+ newline); EvLogClose; EvConnClose; EvExit 0]).
    split; [world_simpl; rewrite Htr; world_simpl; by rewrite <- !app_assoc|].
    intros ev [Hin|[Hin|Hin]%in_app_or]%in_app_or.
    + cbn in Hin. intuition (subst; try discriminate).
    + destruct (Hdevs ev Hin) as [[r ->]|[[r ->]|[Hl| ->]]];
        repeat split; try discriminate; try congruence.
      all: intros; subst; discriminate.
    + destruct Hin as [<-|[<-|[<-|[<-|[]]]]]; repeat split; try discriminate.
      intros line [= <-]. by left.
Qed.

(** * The claims about [validateFilename] and [main] *)

(** C3: [validateFilename] returns [nil] exactly for the strings that
    consist of one or more characters of the class [[a-zA-Z0-9._-]]; for
    every other string, the empty one included, it returns an error whose
    message carries that string. *)
Theorem validateFilename_whole_class (filename : string) :
  validateFilename filename =
    if whole_string_in_class filename then None
    else Some (errorString ("invalid filename: " +:+ filename)).
Proof.
  unfold validateFilename. rewrite MatchString_FilenameRegex.
  by destruct (whole_string_in_class filename).
Qed.

(** The names that the specification lists are rejected, a plain name is
    accepted, and a newline at the end is not overlooked. *)
Example validateFilename_samples :
  validateFilename "A-z_0.9" = None /\
  validateFilename "/etc/passwd" = Some (errorString "invalid filename: /etc/passwd") /\
  validateFilename "a b.txt" = Some (errorString "invalid filename: a b.txt") /\
  validateFilename EmptyString = Some (errorString "invalid filename: ") /\
  validateFilename ("test.txt" +:+ newline)
    = Some (errorString ("invalid filename: test.txt" +:+ newline)).
Proof. repeat split. Qed.


(** No run that ends with status 1 closes the log or the connection:
    [os.Exit] leaves the deferred calls of [main] undone. *)
Lemma error_exit_skips_deferred_closes filename fuel w w' :
  run_with filename fuel w = Some (1%Z, w') ->
  count_event EvLogClose (emitted w w') = 0 /\
  count_event EvConnClose (emitted w w') = 0.
Proof.
  intros H.
  assert (Hem : forall w0 evs, trace w0 = trace w ++ evs -> emitted w w0 = evs)
    by (intros; by apply emitted_app).
  destruct (run_with_cases _ _ _ _ _ H)
    as [(e & _ & _ & ->)
       |[(e & _ & _ & _ & ->)
        |[(e & _ & _ & _ & _ & ->)
         |[(e & w2 & _ & _ & _ & Hdl & _ & ->)
          |(w2 & _ & _ & _ & _ & [=] & _)]]]].
  - erewrite Hem; [|world_simpl; rewrite <- !app_assoc; reflexivity].
    unfold count_event. cbn [count_occ].
    repeat (destruct (Event_eq_dec _ _); try congruence). done.
  - erewrite Hem; [|world_simpl; rewrite <- !app_assoc; reflexivity].
    unfold count_event. cbn [count_occ].
    repeat (destruct (Event_eq_dec _ _); try congruence). done.
  - erewrite Hem; [|world_simpl; rewrite <- !app_assoc; reflexivity].
    unfold count_event. cbn [count_occ].
    repeat (destruct (Event_eq_dec _ _); try congruence). done.
  - destruct (downloadFile_events _ _ _ _ _ _ Hdl) as (devs & Htr & Hdevs).
    erewrite Hem; last first.
    { world_simpl. rewrite Htr. world_simpl. rewrite <- !app_assoc. reflexivity. }
    assert (Hno : forall ev, is_loop_event ev = false ->
                    (forall r, ev <> EvConnWrite (request_line filename) r) ->
                    (forall r, ev <> EvCreate filename r) ->
                    ev <> EvFileClose filename ->
                    count_occ Event_eq_dec devs ev = 0).
    { intros ev Hl H1 H2 H3. apply count_occ_not_In. intros Hin.
      destruct (Hdevs _ Hin) as [[r ->]|[[r ->]|[Hl'| ->]]];
        [by eapply H1|by eapply H2|congruence|done]. }
    unfold count_event. cbn [app count_occ]. rewrite !count_occ_app, !Hno by done.
    cbn [count_occ].
    repeat (destruct (Event_eq_dec _ _); try congruence). done.
Qed.

(** C1 (what the code does where the claim fails): when the output file
    cannot be created, [main] logs the error and ends the process through
    [os.Exit(1)].  The log holds the entry, but the deferred
    [logFile.Close()] and [conn.Close()] are not run: at the exit the log
    and the connection have been closed zero times, not once. *)
Theorem create_failure_exits_without_closing (fuel : nat) (w : World) (e : error) :
  dial_fault (script w) = None ->
  openlog_fault (script w) = None ->
  conn_write_fault (script w) = None ->
  create_fault (script w) = Some e ->
  exists w',
    run fuel w = Some (1%Z, w') /\
    emitted w w' =
      [EvDial "tcp" ServerAddress ConnectionTimeout None;
       EvOpenLog DefaultLogFilename None;
       EvConnWrite (request_line "test.txt") None;
       EvCreate "test.txt" (Some e);
       EvLogPrint (Sprintln ["error downloading file:";
                             Error (Errorf_w "error creating file" e)]);
       EvExit 1] /\
    logfile w' =
      Some (default [] (logfile w)
              ++ [(clock w, Sprintln ["error downloading file:";
                                      Error (Errorf_w "error creating file" e)])]) /\
    count_event EvLogClose (emitted w w') = 0 /\
    count_event EvConnClose (emitted w w') = 0.
Proof.
  intros Hd Ho Hw Hc. unfold run, main.
  rewrite main_with_download by done.
  rewrite (downloadFile_create_failed _ _ _ _ e) by done.
  eexists. split; [reflexivity|].
  assert (Hem : forall w0 evs, trace w0 = trace w ++ evs -> emitted w w0 = evs)
    by (intros; by apply emitted_app).
  erewrite Hem; last first.
  { world_simpl. rewrite <- !app_assoc. reflexivity. }
  split; [reflexivity|]. split; [reflexivity|].
  unfold count_event. cbn [app count_occ].
  repeat (destruct (Event_eq_dec _ _); try congruence). done.
Qed.

Lemma create_failure_exits_without_closing_witness :
  exists w',
    run 20 Sample.w_create = Some (1%Z, w') /\
    emitted Sample.w_create w' =
      [EvDial "tcp" ServerAddress ConnectionTimeout None;
       EvOpenLog DefaultLogFilename None;
       EvConnWrite (request_line "test.txt") None;
       EvCreate "test.txt" (Some (errorString "open test.txt: permission denied"));
       EvLogPrint (Sprintln ["error downloading file:";
                             Error (Errorf_w "error creating file"
                                      (errorString "open test.txt: permission denied"))]);
       EvExit 1] /\
    logfile w' =
      Some (default [] (logfile Sample.w_create)
              ++ [(clock Sample.w_create,
                   Sprintln ["error downloading file:";
                             Error (Errorf_w "error creating file"
                                      (errorString "open test.txt: permission denied"))])]) /\
    count_event EvLogClose (emitted Sample.w_create w') = 0 /\
    count_event EvConnClose (emitted Sample.w_create w') = 0.
Proof.
  apply (create_failure_exits_without_closing 20 Sample.w_create
           (errorString "open test.txt: permission denied")); reflexivity.
Defined.

(** C8: the process ends with status 0 exactly when the dial, the opening
    of the log, the validation and the download all succeed, and with
    status 1 otherwise.  A failed dial is reported on standard output and
    ends the process at once; a rejected file name and a failed download
    are reported in the log and leave standard output as it was. *)
Theorem exit_status (filename : string) (fuel : nat) (w : World) :
  (forall e,
      dial_fault (script w) = Some e ->
      exists w',
        run_with filename fuel w = Some (1%Z, w') /\
        emitted w w' =
          [EvDial "tcp" ServerAddress ConnectionTimeout (Some e);
           EvStdout (Sprintln ["error connecting to server:"; Error e]);
           EvExit 1] /\
        stdout w' = stdout w ++ [Sprintln ["error connecting to server:"; Error e]] /\
        logfile w' = logfile w) /\
  (forall e,
      dial_fault (script w) = None ->
      openlog_fault (script w) = None ->
      validateFilename filename = Some e ->
      exists w',
        run_with filename fuel w = Some (1%Z, w') /\
        emitted w w' =
          [EvDial "tcp" ServerAddress ConnectionTimeout None;
           EvOpenLog DefaultLogFilename None;
           EvLogPrint (Sprintln ["invalid filename:"; Error e]);
           EvExit 1] /\
        stdout w' = stdout w /\
        logfile w' =
          Some (default [] (logfile w)
                  ++ [(clock w, Sprintln ["invalid filename:"; Error e])])) /\
  (forall e w2,
      dial_fault (script w) = None ->
      openlog_fault (script w) = None ->
      validateFilename filename = None ->
      downloadFile fuel filename DefaultBufferSize (connected w) = Returned (Some e) w2 ->
      exists w',
        run_with filename fuel w = Some (1%Z, w') /\
        stdout w' = stdout w /\
        logfile w' =
          Some (default [] (logfile w)
                  ++ [(clock w2, Sprintln ["error downloading file:"; Error e])])) /\
  ((exists w', run_with filename fuel w = Some (0%Z, w')) <->
   dial_fault (script w) = None /\
   openlog_fault (script w) = None /\
   validateFilename filename = None /\
   exists w2,
     downloadFile fuel filename DefaultBufferSize (connected w) = Returned None w2) /\
  (forall code w',
      run_with filename fuel w = Some (code, w') -> code = 0%Z \/ code = 1%Z).
Proof.
  assert (Hem : forall w0 evs, trace w0 = trace w ++ evs -> emitted w w0 = evs)
    by (intros; by apply emitted_app).
  split; [|split; [|split; [|split]]].
  - intros e Hd. unfold run_with. rewrite (main_with_dial_failed _ _ _ e) by done.
    eexists. split; [reflexivity|]. split; [|split; reflexivity].
    apply Hem. world_simpl. by rewrite <- !app_assoc.
  - intros e Hd Ho Hv. unfold run_with. rewrite (main_with_invalid _ _ _ e) by done.
    eexists. split; [reflexivity|]. split; [|split; reflexivity].
    apply Hem. world_simpl. by rewrite <- !app_assoc.
  - intros e w2 Hd Ho Hv Hdl. unfold run_with.
    rewrite main_with_download, Hdl by done.
    destruct (downloadFile_run _ _ _ _ _ _ Hdl) as (evs & _ & Hso & Hlg & _).
    eexists. split; [reflexivity|]. world_simpl. rewrite Hso, Hlg. by split.
  - split.
    + intros [w' H].
      destruct (run_with_cases _ _ _ _ _ H)
        as [(e & _ & [=] & _)
           |[(e & _ & _ & [=] & _)
            |[(e & _ & _ & _ & [=] & _)
             |[(e & w2 & _ & _ & _ & _ & [=] & _)
              |(w2 & Hd & Ho & Hv & Hdl & _ & _)]]]].
      repeat split; try done. by exists w2.
    + intros (Hd & Ho & Hv & w2 & Hdl). unfold run_with.
      rewrite main_with_download, Hdl by done. by eexists.
  - intros code w' H.
    destruct (run_with_cases _ _ _ _ _ H)
      as [(e & _ & -> & _)
         |[(e & _ & _ & -> & _)
          |[(e & _ & _ & _ & -> & _)
           |[(e & w2 & _ & _ & _ & _ & -> & _)
            |(w2 & _ & _ & _ & _ & -> & _)]]]]; auto.
Qed.

Lemma exit_status_witness :
  (exists w',
      run_with "test.txt" 20 Sample.w_unreachable = Some (1%Z, w') /\
      emitted Sample.w_unreachable w' =
        [EvDial "tcp" ServerAddress ConnectionTimeout
                (Some (errorString "dial tcp 127.0.0.1:8000: connect: connection refused"));
         EvStdout (Sprintln ["error connecting to server:";
                             "dial tcp 127.0.0.1:8000: connect: connection refused"]);
         EvExit 1] /\
      stdout w' =
        stdout Sample.w_unreachable
          ++ [Sprintln ["error connecting to server:";
                        "dial tcp 127.0.0.1:8000: connect: connection refused"]] /\
      logfile w' = logfile Sample.w_unreachable) /\
  (exists w',
      run_with "a b.txt" 20 Sample.w_hello = Some (1%Z, w') /\
      emitted Sample.w_hello w' =
        [EvDial "tcp" ServerAddress ConnectionTimeout None;
         EvOpenLog DefaultLogFilename None;
         EvLogPrint (Sprintln ["invalid filename:"; "invalid filename: a b.txt"]);
         EvExit 1] /\
      stdout w' = stdout Sample.w_hello /\
      logfile w' =
        Some (default [] (logfile Sample.w_hello)
                ++ [(clock Sample.w_hello,
                     Sprintln ["invalid filename:"; "invalid filename: a b.txt"])])) /\
  (exists w', run_with "test.txt" 20 Sample.w_hello = Some (0%Z, w')).
Proof.
  split; [|split].
  - apply (proj1 (exit_status "test.txt" 20 Sample.w_unreachable)
                 (errorString "dial tcp 127.0.0.1:8000: connect: connection refused")).
    reflexivity.
  - apply (proj1 (proj2 (exit_status "a b.txt" 20 Sample.w_hello))
                 (errorString "invalid filename: a b.txt")); reflexivity.
  - apply (proj2 (proj1 (proj2 (proj2 (proj2 (exit_status "test.txt" 20 Sample.w_hello)))))).
    repeat split. eexists. vm_compute. reflexivity.
Defined.

(** C9: when the server cannot be reached the program ends with status 1
    after two calls only, the dial and the print to standard output; the
    log is neither opened nor written, and no file is touched. *)
Theorem dial_failure_leaves_log_untouched (fuel : nat) (w : World) (e : error) :
  dial_fault (script w) = Some e ->
  exists w',
    run fuel w = Some (1%Z, w') /\
    emitted w w' =
      [EvDial "tcp" ServerAddress ConnectionTimeout (Some e);
       EvStdout (Sprintln ["error connecting to server:"; Error e]);
       EvExit 1] /\
    logfile w' = logfile w /\
    fs w' = fs w /\
    stdout w' = stdout w ++ [Sprintln ["error connecting to server:"; Error e]].
Proof.
  intros Hd. unfold run, main. rewrite (main_with_dial_failed _ _ _ e) by done.
  eexists. split; [reflexivity|]. split; [|repeat split].
  apply emitted_app. world_simpl. by rewrite <- !app_assoc.
Qed.

Lemma dial_failure_leaves_log_untouched_witness :
  exists w',
    run 20 Sample.w_unreachable = Some (1%Z, w') /\
    emitted Sample.w_unreachable w' =
      [EvDial "tcp" ServerAddress ConnectionTimeout
              (Some (errorString "dial tcp 127.0.0.1:8000: connect: connection refused"));
       EvStdout (Sprintln ["error connecting to server:";
                           "dial tcp 127.0.0.1:8000: connect: connection refused"]);
       EvExit 1] /\
    logfile w' = logfile Sample.w_unreachable /\
    fs w' = fs Sample.w_unreachable /\
    stdout w' =
      stdout Sample.w_unreachable
        ++ [Sprintln ["error connecting to server:";
                      "dial tcp 127.0.0.1:8000: connect: connection refused"]].
Proof.
  apply (dial_failure_leaves_log_untouched 20 Sample.w_unreachable
           (errorString "dial tcp 127.0.0.1:8000: connect: connection refused")).
  reflexivity.
Defined.

(** C10: [main] asks for the constant name [test.txt] in every world: that
    is the name in every request it sends and of every file it creates; the
    validator accepts it, so no run logs a rejected file name. *)
Theorem shipped_filename_is_valid (fuel : nat) (w : World) :
  validateFilename "test.txt" = None /\
  main fuel w = main_with "test.txt" fuel w /\
  (forall code w',
      run fuel w = Some (code, w') ->
      (forall data r, In (EvConnWrite data r) (emitted w w') ->
                      data = request_line "test.txt") /\
      (forall name r, In (EvCreate name r) (emitted w w') -> name = "test.txt") /\
      (forall e, ~ In (EvLogPrint (Sprintln ["invalid filename:"; Error e]))
                      (emitted w w'))).
Proof.
  split; [reflexivity|]. split; [reflexivity|].
  intros code w' H. change (run fuel w) with (run_with "test.txt" fuel w) in H.
  destruct (run_with_events _ _ _ _ _ H) as (evs & Htr & Hevs).
  rewrite (emitted_app _ _ _ Htr). split; [|split].
  - intros data r Hin. by eapply (proj1 (Hevs _ Hin)).
  - intros name r Hin. by eapply (proj1 (proj2 (Hevs _ Hin))).
  - intros e Hin.
    destruct (proj2 (proj2 (Hevs _ Hin)) _ eq_refl) as [Hl|[[e' Hl]|(e' & Hv & _)]].
    + cbn in Hl. discriminate Hl.
    + cbn in Hl. discriminate Hl.
    + rewrite validateFilename_test_txt in Hv. discriminate Hv.
Qed.

Lemma shipped_filename_is_valid_witness :
  validateFilename "test.txt" = None /\
  (forall data r, In (EvConnWrite data r)
                     (emitted Sample.w_hello
                        (emit (EvExit 0)
                           (match main 20 Sample.w_hello with
                            | Returned _ w' => w'
                            | _ => Sample.w_hello
                            end))) ->
                  data = request_line "test.txt").
Proof.
  split.
  - apply (proj1 (shipped_filename_is_valid 20 Sample.w_hello)).
  - apply (proj2 (proj2 (shipped_filename_is_valid 20 Sample.w_hello)) 0%Z).
    vm_compute. reflexivity.
Defined.

(** * Further facts about [downloadFile] *)

Lemma read_bytes_app l1 l2 : read_bytes (l1 ++ l2) = read_bytes l1 ++ read_bytes l2.
Proof. unfold read_bytes. by rewrite flat_map_app. Qed.

Lemma alter_app_nil_eq (k : string) (m m' : gmap string (list byte)) :
  m' = m -> m' = alter (fun old => old ++ []) k m.
Proof. intros ->. by rewrite alter_app_nil. Qed.

(** What the loop does to the files and which errors it returns, whatever
    the world does. *)
Lemma receive_effects fuel file cap : forall w res w',
  receive fuel file cap w = Returned res w' ->
  exists evs,
    trace w' = trace w ++ evs /\
    (forall k, k <> file_name file -> fs w' !! k = fs w !! k) /\
    (forallb is_none (file_write_faults (script w)) = true ->
     fs w' = alter (fun old => old ++ read_bytes evs) (file_name file) (fs w)) /\
    (forall e, res = Some e ->
       exists phase cause,
         e = Errorf_w phase cause /\
         In phase ["error setting read deadline"; "error reading data from connection";
                   "error writing data to file"]).
Proof.
  induction fuel as [|fuel IH]; intros w res w' H; [done|].
  cbn [receive] in H. unfold bind, time_Now, conn_SetReadDeadline in H. world_simpl.
  destruct (hd None (deadline_faults (script w))) as [e|] eqn:Hd.
  { unfold ret in H. injection H as <- <-. eexists. split; [|split; [|split]].
    - world_simpl. rewrite <- !app_assoc. reflexivity.
    - done.
    - intros _. world_simpl. by rewrite alter_app_nil.
    - intros e0 [= <-]. eexists _, _. split; [reflexivity|]. cbn. auto. }
  assert (Hstep : forall w1 t c d,
             trace w1 = trace w ++ [EvNow t; EvSetReadDeadline (t + ConnectionTimeout) None;
                                    EvConnRead c d None;
                                    EvFileWrite (file_name file) d None] ->
             fs w1 = alter (fun old => old ++ d) (file_name file) (fs w) ->
             file_write_faults (script w1) = tl (file_write_faults (script w)) ->
             receive fuel file cap w1 = Returned res w' ->
             exists evs,
               trace w' = trace w ++ evs /\
               (forall k, k <> file_name file -> fs w' !! k = fs w !! k) /\
               (forallb is_none (file_write_faults (script w)) = true ->
                fs w' = alter (fun old => old ++ read_bytes evs) (file_name file) (fs w)) /\
               (forall e, res = Some e ->
                  exists phase cause,
                    e = Errorf_w phase cause /\
                    In phase ["error setting read deadline";
                              "error reading data from connection";
                              "error writing data to file"])).
  { intros w1 t c d Htr Hfs Hff Hrec.
    destruct (IH _ _ _ Hrec) as (evs & Htr' & Hfr & Hcont & Herr).
    eexists. split; [|split; [|split]].
    - rewrite Htr', Htr, <- app_assoc. reflexivity.
    - intros k Hk. rewrite (Hfr k Hk), Hfs. by rewrite lookup_alter_ne.
    - intros Hall. apply forallb_is_none_hd in Hall as [_ Hall].
      rewrite Hcont by (by rewrite Hff). rewrite Hfs, alter_app_app.
      rewrite read_bytes_app. cbn [read_bytes flat_map app]. by rewrite app_nil_r.
    - exact Herr. }
  unfold conn_Read in H. destruct cap as [|c].
  - unfold file_Write in H. world_simpl.
    destruct (hd None (file_write_faults (script w))) as [[n e]|] eqn:Hf;
      cbn [fmap option_fmap option_map snd] in H.
    { unfold ret in H. injection H as <- <-. eexists. split; [|split; [|split]].
      - world_simpl. rewrite <- !app_assoc. reflexivity.
      - intros k Hk. world_simpl. by rewrite lookup_alter_ne.
      - intros Hall. apply forallb_is_none_hd in Hall as [Hall _]. congruence.
      - intros e0 [= <-]. eexists _, _. split; [reflexivity|]. cbn. auto. }
    eapply Hstep; [| | |exact H]; world_simpl;
      [by rewrite <- !app_assoc|done..].
  - unfold read_timeout in H. world_simpl.
    destruct (incoming (script w)) as [|[dt data|dt data err] rest] eqn:Hin;
      world_simpl;
      (destruct (timed_out _ _) eqn:Hto; world_simpl;
       [unfold ret in H; destruct (decide (netTimeout = io_EOF)); [done|];
        injection H as <- <-; eexists; (split; [|split; [|split]]);
        [world_simpl; rewrite <- !app_assoc; reflexivity
        |done
        |intros _; world_simpl; by rewrite alter_app_nil
        |intros e0 [= <-]; eexists _, _; split; [reflexivity|]; cbn; auto]|]).
    + unfold ret in H. destruct (decide (io_EOF = io_EOF)); [|done].
      injection H as <- <-. eexists. split; [|split; [|split]].
      * world_simpl. rewrite <- !app_assoc. reflexivity.
      * done.
      * intros _. world_simpl. by rewrite alter_app_nil.
      * done.
    + unfold file_Write in H. world_simpl.
      destruct (hd None (file_write_faults (script w))) as [[n e]|] eqn:Hf;
        cbn [fmap option_fmap option_map snd] in H.
      { unfold ret in H. injection H as <- <-. eexists. split; [|split; [|split]].
        - world_simpl. rewrite <- !app_assoc. reflexivity.
        - intros k Hk. world_simpl. by rewrite lookup_alter_ne.
        - intros Hall. apply forallb_is_none_hd in Hall as [Hall _]. congruence.
        - intros e0 [= <-]. eexists _, _. split; [reflexivity|]. cbn. auto. }
      eapply Hstep; [| | |exact H]; world_simpl;
        [by rewrite <- !app_assoc|done..].
    + unfold ret in H. destruct (decide (err = io_EOF)) as [->|Hne];
        injection H as <- <-; eexists; (split; [|split; [|split]]);
        try (world_simpl; rewrite <- !app_assoc; reflexivity);
        try done;
        try (intros _; world_simpl; by rewrite alter_app_nil).
      intros e0 [= <-]. eexists _, _. split; [reflexivity|]. cbn. auto.
Qed.

(** What a download does to the files and to the connection, and which
    errors it returns, whatever the world does. *)
Lemma downloadFile_effects fuel filename cap w res w' :
  downloadFile fuel filename cap w = Returned res w' ->
  exists evs,
    trace w' = trace w ++ evs /\
    (forall k, k <> filename -> fs w' !! k = fs w !! k) /\
    (conn_write_fault (script w) = None ->
     create_fault (script w) = None ->
     forallb is_none (file_write_faults (script w)) = true ->
     fs w' !! filename = Some (read_bytes evs)) /\
    (forall e, res = Some e ->
       exists phase cause, e = Errorf_w phase cause /\ In phase download_phases) /\
    (exists k, sent w' = sent w ++ take k (request_line filename)).
Proof.
  intros H.
  destruct (conn_write_fault (script w)) as [[n e]|] eqn:Hw.
  { rewrite (downloadFile_request_failed _ _ _ _ n e) in H by done.
    injection H as <- <-. eexists. split; [reflexivity|].
    split; [done|]. split; [done|]. split.
    - intros e0 [= <-]. eexists _, _. split; [reflexivity|]. cbn. auto.
    - by exists n. }
  destruct (create_fault (script w)) as [e|] eqn:Hc.
  { rewrite (downloadFile_create_failed _ _ _ _ e) in H by done.
    injection H as <- <-. eexists. split; [world_simpl; by rewrite <- app_assoc|].
    split; [done|]. split; [done|]. split.
    - intros e0 [= <-]. eexists _, _. split; [reflexivity|]. cbn. auto.
    - exists (length (request_line filename)). world_simpl. by rewrite take_ge. }
  rewrite downloadFile_started in H by done. unfold defer in H.
  destruct (receive fuel _ cap (started filename w)) as [res3 w3|c w3|] eqn:Hr; [|done..].
  cbn in H. injection H as <- <-.
  destruct (receive_effects _ _ _ _ _ _ Hr) as (levs & Htr & Hfr & Hcont & Herr).
  destruct (receive_loop_run _ _ _ _ _ _ Hr) as [levs' [_ _ _ _ _ _ _ _ _ Hse]].
  exists ([EvConnWrite (request_line filename) None; EvCreate filename None]
            ++ levs ++ [EvFileClose filename]).
  split; [|split; [|split; [|split]]].
  - world_simpl. rewrite Htr. world_simpl. rewrite <- !app_assoc. reflexivity.
  - intros k Hk. world_simpl. rewrite (Hfr k) by done. by rewrite lookup_insert_ne.
  - intros _ _ Hall. world_simpl. rewrite Hcont by done.
    rewrite alter_insert_eq, lookup_insert_eq, !read_bytes_app. cbn.
    by rewrite app_nil_r.
  - intros e He. destruct (Herr e He) as (phase & cause & -> & Hin).
    exists phase, cause. split; [done|].
    cbn in Hin. cbn. intuition.
  - exists (length (request_line filename)). world_simpl. rewrite Hse.
    by rewrite take_ge.
Qed.

(** X1: a write to the output file that fails ends [downloadFile] with the
    error wrapped as a write error. *)
Theorem file_write_failure_is_returned (fuel : nat) (filename : string)
        (cap : nat) (w : World) :
  0 < cap ->
  pending (incoming (script w)) < fuel ->
  exists res w',
    downloadFile fuel filename cap w = Returned res w' /\
    forall name d e,
      In (EvFileWrite name d (Some e)) (emitted w w') ->
      res = Some (Errorf_w "error writing data to file" e).
Proof.
  intros Hcap Hfuel. destruct cap as [|c]; [lia|].
  destruct (downloadFile_total fuel filename c w Hfuel) as (res & w' & Hret).
  exists res, w'. split; [done|].
  destruct (downloadFile_run _ _ _ _ _ _ Hret)
    as (evs & Htr & _ & _ & [(n & e & _ & -> & -> & _)
                            |[(e & _ & _ & -> & -> & _)
                             |(w3 & levs & _ & _ & -> & Hrun & _)]]);
    rewrite (emitted_app _ _ _ Htr).
  - intros name d e0 [H|[]]. discriminate H.
  - intros name d e0 [H|[H|[]]]; discriminate H.
  - destruct Hrun as [_ _ _ _ _ Hwr _ _ _ _].
    intros name d e [H|[H|H]]; [discriminate H..|].
    apply in_app_or in H as [H|[H|[]]]; [|discriminate H].
    by apply (Hwr name d).
Qed.

Lemma file_write_failure_is_returned_witness :
  exists res w',
    downloadFile 20 "test.txt" 8 MoreSample.w_disk_full = Returned res w' /\
    forall name d e,
      In (EvFileWrite name d (Some e)) (emitted MoreSample.w_disk_full w') ->
      res = Some (Errorf_w "error writing data to file" e).
Proof.
  apply (file_write_failure_is_returned 20 "test.txt" 8 MoreSample.w_disk_full).
  - lia.
  - cbn. lia.
Defined.

(** In the sample the second write fails after 3 of 6 bytes: the error comes
    back wrapped and the file keeps what was written. *)
Example disk_full_sample :
  exists w',
    downloadFile 20 "test.txt" 8 MoreSample.w_disk_full =
      Returned (Some (wrapError "error writing data to file: no space left on device"
                                (errorString "no space left on device"))) w' /\
    fs w' !! "test.txt" = Some (Sample.bytes "hello wo").
Proof. eexists. split; vm_compute; reflexivity. Qed.

(** X2: when the request is sent, the file is created and no write to it
    fails, the file holds, when [downloadFile] returns, exactly the bytes
    that the reads without error returned, in their order, whatever the
    file held before and however the loop ended. *)
Theorem file_holds_the_bytes_read (fuel : nat) (filename : string)
        (cap : nat) (w : World) :
  0 < cap ->
  pending (incoming (script w)) < fuel ->
  conn_write_fault (script w) = None ->
  create_fault (script w) = None ->
  forallb is_none (file_write_faults (script w)) = true ->
  exists res w',
    downloadFile fuel filename cap w = Returned res w' /\
    fs w' !! filename = Some (read_bytes (emitted w w')).
Proof.
  intros Hcap Hfuel Hw Hc Hall. destruct cap as [|c]; [lia|].
  destruct (downloadFile_total fuel filename c w Hfuel) as (res & w' & Hret).
  exists res, w'. split; [done|].
  destruct (downloadFile_effects _ _ _ _ _ _ Hret) as (evs & Htr & _ & Hcont & _).
  rewrite (emitted_app _ _ _ Htr). by apply Hcont.
Qed.

Lemma file_holds_the_bytes_read_witness :
  exists res w',
    downloadFile 20 "test.txt" 4 MoreSample.w_gap = Returned res w' /\
    fs w' !! "test.txt" = Some (read_bytes (emitted MoreSample.w_gap w')).
Proof.
  apply (file_holds_the_bytes_read 20 "test.txt" 4 MoreSample.w_gap).
  - lia.
  - cbn. lia.
  - reflexivity.
  - reflexivity.
  - reflexivity.
Defined.



(** The second run replaces the older and longer content and keeps the
    other file. *)
Example second_run_overwrites :
  exists w',
    downloadFile 20 "test.txt" 8 MoreSample.w_second_run = Returned None w' /\
    fs w' !! "test.txt" = Some (Sample.bytes "hello world") /\
    fs w' !! "notes.txt" = Some (Sample.bytes "keep").
Proof. eexists. split; [|split]; vm_compute; reflexivity. Qed.



(** X5: a [downloadFile] that returns has closed the output file once if it
    created it, and has closed nothing if it did not; it creates at most
    one file. *)
Theorem output_file_closed_once (fuel : nat) (filename : string)
        (cap : nat) (w : World) :
  0 < cap ->
  pending (incoming (script w)) < fuel ->
  exists res w',
    downloadFile fuel filename cap w = Returned res w' /\
    count_event (EvFileClose filename) (emitted w w')
      = count_event (EvCreate filename None) (emitted w w') /\
    count_event (EvCreate filename None) (emitted w w') <= 1 /\
    (create_fault (script w) = None -> conn_write_fault (script w) = None ->
     count_event (EvFileClose filename) (emitted w w') = 1).
Proof.
  intros Hcap Hfuel. destruct cap as [|c]; [lia|].
  destruct (downloadFile_total fuel filename c w Hfuel) as (res & w' & Hret).
  exists res, w'. split; [done|].
  destruct (downloadFile_closes_its_file_once _ _ _ _ _ _ Hret) as [Heq Hle].
  split; [done|]. split; [done|].
  intros Hc Hw. rewrite Heq.
  destruct (downloadFile_run _ _ _ _ _ _ Hret)
    as (evs & Htr & _ & _ & [(n & e & Hw' & _)
                            |[(e & _ & Hc' & _)
                             |(w3 & levs & _ & _ & -> & Hrun & _)]]);
    [congruence..|].
  rewrite (emitted_app _ _ _ Htr).
  destruct Hrun as [_ _ Hev _ _ _ _ _ _ _].
  pose proof (count_event_loop (EvCreate filename None) levs eq_refl Hev) as H0.
  unfold count_event in *.
  change (EvConnWrite (request_line filename) None
            :: EvCreate filename None :: levs ++ [EvFileClose filename])
    with ([EvConnWrite (request_line filename) None; EvCreate filename None]
            ++ levs ++ [EvFileClose filename]).
  rewrite !count_occ_app, H0. cbn [count_occ].
  repeat (destruct (Event_eq_dec _ _); try congruence). lia.
Qed.

Lemma output_file_closed_once_witness :
  exists res w',
    downloadFile 20 "test.txt" 8 MoreSample.w_disk_full = Returned res w' /\
    count_event (EvFileClose "test.txt") (emitted MoreSample.w_disk_full w')
      = count_event (EvCreate "test.txt" None) (emitted MoreSample.w_disk_full w') /\
    count_event (EvCreate "test.txt" None) (emitted MoreSample.w_disk_full w') <= 1 /\
    (create_fault (script MoreSample.w_disk_full) = None ->
     conn_write_fault (script MoreSample.w_disk_full) = None ->
     count_event (EvFileClose "test.txt") (emitted MoreSample.w_disk_full w') = 1).
Proof.
  apply (output_file_closed_once 20 "test.txt" 8 MoreSample.w_disk_full).
  - lia.
  - cbn. lia.
Defined.

(** * Further facts about [main] *)




(** X7: when the log cannot be opened, [main] reports it on standard output
    and ends with status 1 before anything is sent to the server or written
    to a file; the connection that was opened is not closed. *)
Theorem log_open_failure_ends_the_run (filename : string) (fuel : nat)
        (w : World) (e : error) :
  dial_fault (script w) = None ->
  openlog_fault (script w) = Some e ->
  exists w',
    run_with filename fuel w = Some (1%Z, w') /\
    emitted w w' =
      [EvDial "tcp" ServerAddress ConnectionTimeout None;
       EvOpenLog DefaultLogFilename (Some e);
       EvStdout (Sprintln ["error creating log file:"; Error e]);
       EvExit 1] /\
    stdout w' = stdout w ++ [Sprintln ["error creating log file:"; Error e]] /\
    sent w' = sent w /\ fs w' = fs w /\ logfile w' = logfile w.
Proof.
  intros Hd Ho. unfold run_with.
  rewrite (main_with_openlog_failed _ _ _ e) by done.
  eexists. split; [reflexivity|]. split; [|repeat split].
  apply emitted_app. world_simpl. by rewrite <- !app_assoc.
Qed.

Lemma log_open_failure_ends_the_run_witness :
  exists w',
    run_with "test.txt" 20 MoreSample.w_log_denied = Some (1%Z, w') /\
    emitted MoreSample.w_log_denied w' =
      [EvDial "tcp" ServerAddress ConnectionTimeout None;
       EvOpenLog DefaultLogFilename
                 (Some (errorString "open tcp-client.log: permission denied"));
       EvStdout (Sprintln ["error creating log file:";
                           "open tcp-client.log: permission denied"]);
       EvExit 1] /\
    stdout w' =
      stdout MoreSample.w_log_denied
        ++ [Sprintln ["error creating log file:";
                      "open tcp-client.log: permission denied"]] /\
    sent w' = sent MoreSample.w_log_denied /\
    fs w' = fs MoreSample.w_log_denied /\
    logfile w' = logfile MoreSample.w_log_denied.
Proof.
  apply (log_open_failure_ends_the_run "test.txt" 20 MoreSample.w_log_denied
           (errorString "open tcp-client.log: permission denied")); reflexivity.
Defined.





(** * Further facts about the request line *)

Lemma list_ascii_of_string_app s1 s2 :
  list_ascii_of_string (s1 +:+ s2) = list_ascii_of_string s1 ++ list_ascii_of_string s2.
Proof. induction s1 as [|c s1 IH]; simpl; [done|by f_equal]. Qed.

Lemma list_byte_of_string_app s1 s2 :
  list_byte_of_string (String.append s1 s2)
  = list_byte_of_string s1 ++ list_byte_of_string s2.
Proof. unfold list_byte_of_string. by rewrite list_ascii_of_string_app, map_app. Qed.

Lemma request_line_bytes filename :
  request_line filename
  = list_byte_of_string "GET " ++ list_byte_of_string filename ++ [x0a].
Proof.
  change (request_line filename)
    with (list_byte_of_string (String.append "GET " (String.append filename newline))).
  by rewrite !list_byte_of_string_app.
Qed.

Lemma allowed_byte c b :
  allowed_char c = true -> allowed_char (ascii_of_byte b) = false ->
  byte_of_ascii c <> b.
Proof.
  intros Hc Hb <-. rewrite ascii_of_byte_of_ascii in Hb. congruence.
Qed.

(** X9: for a name that the validator accepts, the request is the bytes of
    [GET], a space, the bytes of the name, which is not empty, and one line
    feed; the name holds no line feed, carriage return, space, slash or
    zero byte, so the request is one line with one argument. *)
Theorem validated_request_is_one_line (filename : string) :
  validateFilename filename = None ->
  request_line filename
    = list_byte_of_string "GET " ++ list_byte_of_string filename ++ [x0a] /\
  list_byte_of_string filename <> [] /\
  Forall (fun b => b <> x0a /\ b <> x0d /\ b <> x20 /\ b <> x2f /\ b <> x00)
         (list_byte_of_string filename).
Proof.
  intros Hv. split; [apply request_line_bytes|].
  unfold validateFilename in Hv. rewrite MatchString_FilenameRegex in Hv.
  destruct (whole_string_in_class filename) eqn:Hc; [|discriminate Hv].
  unfold whole_string_in_class in Hc. unfold list_byte_of_string.
  destruct (list_ascii_of_string filename) as [|c cs] eqn:E; [discriminate Hc|].
  split; [done|].
  apply List.Forall_map, List.Forall_forall. intros a Ha.
  rewrite forallb_forall in Hc. specialize (Hc a Ha).
  repeat split; by apply allowed_byte.
Qed.

Lemma validated_request_is_one_line_witness :
  request_line "test.txt"
    = list_byte_of_string "GET " ++ list_byte_of_string "test.txt" ++ [x0a] /\
  list_byte_of_string "test.txt" <> [] /\
  Forall (fun b => b <> x0a /\ b <> x0d /\ b <> x20 /\ b <> x2f /\ b <> x00)
         (list_byte_of_string "test.txt").
Proof.
  apply (validated_request_is_one_line "test.txt"). reflexivity.
Defined.

(** * Further facts about the loop *)

Lemma receive_empty_buffer fuel file : forall w,
  no_loop_faults (script w) = true ->
  receive fuel file 0 w = OutOfFuel.
Proof.
  induction fuel as [|fuel IH]; intros w Hq; [done|].
  pose proof Hq as [Hd Hf]%no_loop_faults_hd.
  cbn [receive]. unfold bind, time_Now, conn_SetReadDeadline. world_simpl.
  rewrite Hd. unfold conn_Read, file_Write. world_simpl.
  rewrite Hf. cbn [fmap option_fmap option_map snd].
  apply IH. world_simpl. unfold no_loop_faults in *. world_simpl.
  apply andb_true_iff in Hq as [H1 H2].
  apply forallb_is_none_hd in H1 as [_ ->], H2 as [_ ->]. done.
Qed.

(** X12: with a buffer of 0 bytes every read returns at once with 0 bytes
    and no error, so the loop never sees [io.EOF]: as long as no call
    fails, [downloadFile] does not return, whatever the fuel. *)
Theorem empty_buffer_never_returns (fuel : nat) (filename : string) (w : World) :
  no_local_faults (script w) = true ->
  downloadFile fuel filename 0 w = OutOfFuel.
Proof.
  unfold no_local_faults. intros [[Hw Hc]%andb_true_iff Hq]%andb_true_iff.
  destruct (conn_write_fault (script w)) eqn:Ew; [done|].
  destruct (create_fault (script w)) eqn:Ec; [done|].
  rewrite downloadFile_started by done. unfold defer.
  by rewrite receive_empty_buffer.
Qed.

Lemma empty_buffer_never_returns_witness :
  downloadFile 1000 "test.txt" 0 (Sample.fresh Sample.quiet) = OutOfFuel.
Proof.
  apply (empty_buffer_never_returns 1000 "test.txt" (Sample.fresh Sample.quiet)).
  reflexivity.
Defined.

Lemma left_chunks_facts c data cs :
  arrivals (left_chunks (S c) data cs)
    = match drop (S c) data with
      | [] => arrivals cs
      | more => Arrive 0 more :: arrivals cs
      end /\
  take (S c) data ++ payload (left_chunks (S c) data cs) = data ++ payload cs /\
  pending (arrivals (left_chunks (S c) data cs)) < S (length data + pending (arrivals cs)) /\
  (timely cs = true -> timely (left_chunks (S c) data cs) = true) /\
  total_delay (left_chunks (S c) data cs) = total_delay cs.
Proof.
  unfold left_chunks.
  pose proof (take_drop (S c) data) as Htd.
  pose proof (length_drop data (S c)) as Hlen.
  destruct (drop (S c) data) as [|b more].
  - rewrite app_nil_r in Htd. rewrite Htd. repeat split; try done. lia.
  - split; [done|]. split; [|split; [|split]].
    + unfold payload. cbn [map snd concat]. by rewrite app_assoc, Htd.
    + cbn [arrivals map fst snd pending length] in *. fold (arrivals cs). lia.
    + intros Ht. unfold timely in *. cbn [forallb fst]. rewrite Ht.
      pose proof ConnectionTimeout_pos. by rewrite (proj2 (Z.leb_le _ _)).
    + unfold total_delay. cbn [map fst fold_right]. lia.
Qed.

(** One round that reads from an arrival, with the time it takes. *)
Lemma receive_round_timed file c w dt data rest :
  no_loop_faults (script w) = true ->
  (dt <= ConnectionTimeout)%Z ->
  incoming (script w) = Arrive dt data :: rest ->
  exists w',
    (forall fuel, receive (S fuel) file (S c) w = receive fuel file (S c) w') /\
    no_loop_faults (script w') = true /\
    incoming (script w') =
      match drop (S c) data with [] => rest | more => Arrive 0 more :: rest end /\
    fs w' = alter (fun old => old ++ take (S c) data) (file_name file) (fs w) /\
    clock w' = (clock w + dt)%Z.
Proof.
  intros Hq Hdt Hin.
  pose proof Hq as [Hd Hf]%no_loop_faults_hd.
  eexists. split; [|split; [|split; [|split]]].
  - intros fuel.
    cbn [receive]. unfold bind, time_Now, conn_SetReadDeadline. world_simpl.
    rewrite Hd. unfold conn_Read, timed_out. world_simpl.
    rewrite Hin, fresh_deadline_holds by done.
    world_simpl. unfold file_Write. world_simpl.
    rewrite Hf. cbn [fmap option_fmap option_map snd]. reflexivity.
  - world_simpl. unfold no_loop_faults in *. world_simpl.
    apply andb_true_iff in Hq as [H1 H2].
    apply forallb_is_none_hd in H1 as [_ ->], H2 as [_ ->]. done.
  - reflexivity.
  - reflexivity.
  - reflexivity.
Qed.

(** The loop copies a run of arrivals; the clock advances by their delays. *)
Lemma receive_arrivals_timed file c m : forall chunks tail w,
  pending (arrivals chunks) <= m ->
  timely chunks = true ->
  incoming (script w) = arrivals chunks ++ tail ->
  no_loop_faults (script w) = true ->
  exists n w',
    (forall fuel, receive (n + fuel) file (S c) w = receive fuel file (S c) w') /\
    n <= pending (arrivals chunks) /\
    incoming (script w') = tail /\
    no_loop_faults (script w') = true /\
    fs w' = alter (fun old => old ++ payload chunks) (file_name file) (fs w) /\
    clock w' = (clock w + total_delay chunks)%Z.
Proof.
  induction m as [|m IH]; intros chunks tail w Hm Hti Hin Hq.
  - destruct chunks as [|[dt data] cs]; [|cbn in Hm; lia].
    exists 0, w. repeat split; try done.
    + unfold payload. cbn. by rewrite alter_app_nil.
    + unfold total_delay. cbn. lia.
  - destruct chunks as [|[dt data] cs].
    { exists 0, w. repeat split; try done.
      + unfold payload. cbn. by rewrite alter_app_nil.
      + unfold total_delay. cbn. lia. }
    cbn [arrivals map fst snd app] in Hin.
    unfold timely in Hti. cbn [forallb fst] in Hti.
    apply andb_true_iff in Hti as [Hdt%Z.leb_le Hti]. fold (timely cs) in Hti.
    destruct (receive_round_timed file c w dt data _ Hq Hdt Hin)
      as (w1 & Hstep & Hq1 & Hin1 & Hfs1 & Hck1).
    destruct (left_chunks_facts c data cs) as (Harr & Hpay & Hlt & Hti1 & Htd).
    assert (Hin1' : incoming (script w1) = arrivals (left_chunks (S c) data cs) ++ tail).
    { rewrite Hin1, Harr. by destruct (drop (S c) data). }
    cbn [arrivals map fst snd pending] in Hm.
    fold (arrivals cs) in Hm.
    destruct (IH (left_chunks (S c) data cs) tail w1 ltac:(lia) (Hti1 Hti) Hin1' Hq1)
      as (n & w' & Hrun & Hn & Ht & Hq' & Hfs' & Hck').
    exists (S n), w'. repeat split; try done.
    + intros fuel. cbn [Nat.add]. by rewrite Hstep.
    + cbn [arrivals map fst snd pending]. fold (arrivals cs). lia.
    + rewrite Hfs', Hfs1, alter_app_app. by rewrite Hpay.
    + rewrite Hck', Hck1, Htd. unfold total_delay. cbn [map fst fold_right]. lia.
Qed.

(** X11: when, after chunks that came in time, the next event of the
    connection is due later than [ConnectionTimeout], the read that waits
    for it times out: [downloadFile] returns the timeout wrapped as a read
    error exactly [ConnectionTimeout] after that read was issued, and the
    file holds the chunks that came before. *)
Theorem late_event_times_out (w : World) (filename : string)
        (chunks : list (Z * list byte)) (ev : ReadEv) (rest : list ReadEv)
        (cap fuel : nat) :
  0 < cap ->
  no_local_faults (script w) = true ->
  timely chunks = true ->
  (ConnectionTimeout < due ev)%Z ->
  incoming (script w) = arrivals chunks ++ ev :: rest ->
  pending (arrivals chunks) < fuel ->
  exists w',
    downloadFile fuel filename cap w =
      Returned (Some (Errorf_w "error reading data from connection" netTimeout)) w' /\
    fs w' !! filename = Some (payload chunks) /\
    clock w' = (clock w + total_delay chunks + ConnectionTimeout)%Z.
Proof.
  intros Hcap Hq Hti Hlate Hin Hfuel. destruct cap as [|c]; [lia|].
  unfold no_local_faults in Hq.
  apply andb_true_iff in Hq as [[Hw Hc]%andb_true_iff Hq].
  destruct (conn_write_fault (script w)) eqn:Ew; [done|].
  destruct (create_fault (script w)) eqn:Ec; [done|].
  destruct (receive_arrivals_timed {| file_name := filename |} c _ chunks (ev :: rest)
              (started filename w) (le_n _) Hti Hin Hq)
    as (n & w1 & Hrun & Hn & Hin1 & Hq1 & Hfs1 & Hck1).
  rewrite downloadFile_started by done. unfold defer.
  replace fuel with (n + S (fuel - n - 1)) by lia. rewrite Hrun.
  pose proof Hq1 as [Hd _]%no_loop_faults_hd.
  pose proof ConnectionTimeout_pos as Hpos.
  assert (Hto : deadline_passed (Some (clock w1 + ConnectionTimeout)%Z)
                                (clock w1 + due ev) = true).
  { unfold deadline_passed. apply Z.ltb_lt. lia. }
  cbn [receive]. unfold bind, time_Now, conn_SetReadDeadline. world_simpl.
  rewrite Hd. unfold conn_Read, timed_out, read_timeout, timeout_time. world_simpl.
  rewrite Hin1.
  destruct ev as [dt data|dt data err]; cbn [due] in Hto; rewrite Hto;
    world_simpl; unfold ret; (destruct (decide (netTimeout = io_EOF)); [done|]);
    (eexists; split; [reflexivity|]); world_simpl;
    (split; [by rewrite Hfs1, alter_insert_eq, lookup_insert_eq|]);
    rewrite Hck1; unfold id; apply Z.max_r; lia.
Qed.

Lemma late_event_times_out_witness :
  exists w',
    downloadFile 20 "test.txt" 8 MoreSample.w_gap =
      Returned (Some (Errorf_w "error reading data from connection" netTimeout)) w' /\
    fs w' !! "test.txt" = Some (payload [(5%Z, Sample.bytes "hello")]) /\
    clock w' = (clock MoreSample.w_gap + total_delay [(5%Z, Sample.bytes "hello")]
                + ConnectionTimeout)%Z.
Proof.
  apply (late_event_times_out MoreSample.w_gap "test.txt" [(5%Z, Sample.bytes "hello")]
           (Arrive 40000000000 (Sample.bytes " world")) [] 8 20).
  - lia.
  - reflexivity.
  - reflexivity.
  - unfold ConnectionTimeout. cbn. lia.
  - reflexivity.
  - cbn. lia.
Defined.
